(** * Nuxt core: app assembly, plugin ordering, prerender set, watch reactor

    A shallow embedding of
      - [packages/nuxt/src/core/app.ts]   (generateApp, resolveApp,
        annotatePlugins, checkForCircularDependencies),
      - [packages/nuxt/src/core/nuxt.ts]  (the [builder:watch] handler of
        initNuxt and [RESTART_RE]),
      - the pages module (isPagesEnabled, the [builder:watch] handlers,
        processPages and [OPTIONAL_PARAM_RE]).

    JavaScript strings are modelled as [string] (all patterns of the code are
    ASCII), plain objects used as dictionaries as [gmap string _], arrays as
    lists, [Set<string>] as an insertion-ordered list without repetition,
    [console.error] / [logger.warn] as an explicit log that is threaded
    through, and functions of other packages (pathe, ufo, @nuxt/kit) as
    section variables. *)

From Stdlib Require Import ZArith String Ascii Sorted.
From stdpp Require Import gmap strings list.

Local Open Scope string_scope.
Local Open Scope list_scope.
Local Open Scope Z_scope.

(** ** JavaScript helpers *)

Module Js.

(** [Array.prototype.sort(cmp)]: the sort is stable (ECMAScript 2019), so for
    a consistent comparator its result is the one of any stable sort.  An
    element is inserted in front of the first element it does not compare
    greater than; elements are inserted from the right. *)
Section Sort.
Context {A : Type} (cmp : A → A → Z).

Fixpoint sort_insert (x : A) (l : list A) : list A :=
  match l with
  | [] => [x]
  | y :: l' => if cmp x y <=? 0 then x :: y :: l' else y :: sort_insert x l'
  end.

Definition sort (l : list A) : list A := foldr sort_insert [] l.
End Sort.

(** A JS number as a subtraction and a comparator see it: a number, here
    an integer, or NaN.  (For numbers that are not NaN the sign of [a - b]
    is the one of their comparison, also for fractions and infinities,
    where the difference of two equal infinities is NaN and reads as
    equal; NaN is the value on which this fails.) *)
Inductive JsNumber :=
| Num (z : Z)
| NaN.

(** [a - b] *)
Definition sub (a b : JsNumber) : JsNumber :=
  match a, b with
  | Num x, Num y => Num (x - y)
  | _, _ => NaN
  end.

(** [a <= b] and [a < b]: false when either side is NaN. *)
Definition number_le (a b : JsNumber) : Prop :=
  match a, b with
  | Num x, Num y => x <= y
  | _, _ => False
  end.

Definition number_lt (a b : JsNumber) : Prop :=
  match a, b with
  | Num x, Num y => x < y
  | _, _ => False
  end.

#[global] Instance JsNumber_eq_dec : EqDecision JsNumber.
Proof. solve_decision. Defined.

(** What the sort makes of the value that the comparator returns
    (SortCompare): a NaN is read as [+0]. *)
Definition sortCompare (v : JsNumber) : Z :=
  match v with
  | Num z => z
  | NaN => 0
  end.

(** [arr.sort(comparefn)] for a comparator that returns a number.  Where
    the comparator is consistent the result is the one of the stable sort.
    Where it is not (it returns NaN for elements that are not equal) the
    standard leaves the order to the engine; an engine that sorts a short
    array by insertion asks, as the model does, only whether the result is
    negative. *)
Definition sortBy {A : Type} (comparefn : A → A → JsNumber) (l : list A) : list A :=
  sort (λ x y, sortCompare (comparefn x y)) l.

(** [arr.join(sep)] on an array of strings. *)
Fixpoint join (sep : string) (l : list string) : string :=
  match l with
  | [] => EmptyString
  | [x] => x
  | x :: l' => x +:+ sep +:+ join sep l'
  end.

(** [arr.includes(x)] on an array of strings. *)
Definition includes (l : list string) (x : string) : bool :=
  bool_decide (x ∈ l).

(** Truthiness of a string: only the empty string is falsy. *)
Definition truthy (s : string) : bool :=
  match s with EmptyString => false | _ => true end.

(** [s.startsWith(p)] and [s.endsWith(p)]. *)
Definition startsWith (p s : string) : bool := String.prefix p s.

Definition endsWith (p s : string) : bool :=
  (String.length p <=? String.length s)%nat &&
  String.eqb (String.substring (String.length s - String.length p) (String.length p) s) p.

(** ASCII lower-casing, which is what the [i] flag of a regular expression
    whose pattern is ASCII amounts to (a non-ASCII character never
    canonicalises to an ASCII one). *)
Definition lower_ascii (c : ascii) : ascii :=
  let n := nat_of_ascii c in
  if ((65 <=? n) && (n <=? 90))%nat then ascii_of_nat (n + 32) else c.

Fixpoint lower (s : string) : string :=
  match s with
  | EmptyString => EmptyString
  | String c s' => String (lower_ascii c) (lower s')
  end.

End Js.

(** ** Plugins: annotatePlugins and checkForCircularDependencies (app.ts) *)

(** A plugin as the code reads it: [NuxtPlugin & Omit<PluginMeta,'enforce'>].
    [None] is a field that the object does not have; [order] is a JS
    number, which can be NaN. *)
Record NuxtPlugin := mkPlugin {
  src : string;
  mode : string;
  name : option string;
  order : option Js.JsNumber;
  dependsOn : option (list string)
}.

(** What [extractMetadata] returns. *)
Record PluginMeta := mkMeta {
  meta_name : option string;
  meta_order : option Js.JsNumber;
  meta_dependsOn : option (list string)
}.

(** A call of [logger.warn], [logger.info], [logger.error] or
    [console.error]. [e] is the error object passed as a second argument,
    when there is one. *)
Inductive LogEntry :=
| Warn (msg : string) (e : option string)
| Info (msg : string)
| LoggerError (msg : string)
| ConsoleError (msg : string).

Module Plugins.

Section Annotate.
(** [nuxt.vfs], [fsp.readFile] (an error is [inr message]),
    [extractMetadata] and [orderMap.default] of ./plugins/plugin-metadata,
    which is not among the sources, [relative] of pathe, and
    [nuxt.options.rootDir]. *)
Variable vfs : gmap string string.
Variable readFile : string → string + string.
Variable extractMetadata : string → PluginMeta + string.
Variable orderMap_default : Z.
Variable relative : string → string → string.
Variable rootDir : string.

(** [{ ...meta, ...plugin }]: a field of the plugin shadows the same field
    of the extracted metadata. *)
Definition spread (m : PluginMeta) (p : NuxtPlugin) : NuxtPlugin :=
  {| src := src p;
     mode := mode p;
     name := match name p with Some n => Some n | None => meta_name m end;
     order := match order p with Some o => Some o | None => meta_order m end;
     dependsOn := match dependsOn p with
                  | Some d => Some d
                  | None => meta_dependsOn m
                  end |}.

(** The body of the [try]: the code of the plugin, then its metadata. *)
Definition read_code (p : NuxtPlugin) : string + string :=
  match vfs !! src p with
  | Some code => inl code
  | None => readFile (src p)
  end.

Definition try_annotate (p : NuxtPlugin) : NuxtPlugin + string :=
  match read_code p with
  | inl code =>
      match extractMetadata code with
      | inl m => inl (spread m p)
      | inr e => inr e
      end
  | inr e => inr e
  end.

Definition catch_warning (p : NuxtPlugin) (e : string) : LogEntry :=
  let relativePluginSrc := relative rootDir (src p) in
  if String.eqb e "Invalid plugin metadata"
  then Warn ("Failed to parse static properties from plugin `" +:+ relativePluginSrc +:+
             "`, falling back to non-optimized runtime meta. Learn more: https://nuxt.com/docs/guide/directory-structure/plugins#object-syntax-plugins") None
  else Warn ("Failed to parse static properties from plugin `" +:+ relativePluginSrc +:+ "`.") (Some e).

(** The [for] loop: [_plugins] and the warnings, in order. *)
Fixpoint collect (plugins : list NuxtPlugin) : list NuxtPlugin * list LogEntry :=
  match plugins with
  | [] => ([], [])
  | p :: rest =>
      let '(ps, log) := collect rest in
      match try_annotate p with
      | inl p' => (p' :: ps, log)
      | inr e => (p :: ps, catch_warning p e :: log)
      end
  end.

(** [a.order ?? orderMap.default] *)
Definition orderKey (p : NuxtPlugin) : Js.JsNumber :=
  default (Js.Num orderMap_default) (order p).

Definition compareOrder (a b : NuxtPlugin) : Js.JsNumber := Js.sub (orderKey a) (orderKey b).

Definition annotatePlugins (plugins : list NuxtPlugin) : list NuxtPlugin * list LogEntry :=
  let '(_plugins, log) := collect plugins in
  (Js.sortBy compareOrder _plugins, log).
End Annotate.

(** *** checkForCircularDependencies *)

(** [deps: Record<string, string[]>], created by [Object.create(null)], so
    it has no inherited keys.  The association list keeps the keys in the
    order of their creation; assigning to an existing key keeps its place. *)
Definition Deps := list (string * list string).

Fixpoint get (k : string) (d : Deps) : option (list string) :=
  match d with
  | [] => None
  | (k', v) :: d' => if String.eqb k' k then Some v else get k d'
  end.

Fixpoint assign (k : string) (v : list string) (d : Deps) : Deps :=
  match d with
  | [] => [(k, v)]
  | (k', v') :: d' =>
      if String.eqb k' k then (k', v) :: d' else (k', v') :: assign k v d'
  end.

(** [for (const name in deps)] visits the keys that are array indices
    (canonical decimal numerals below 2^32 - 1) in ascending numeric order,
    and then the other keys in the order of their creation. *)
Definition digit (c : ascii) : option N :=
  let n := N_of_ascii c in
  if ((48 <=? n) && (n <=? 57))%N then Some (n - 48)%N else None.

Fixpoint parse_digits (acc : N) (s : string) : option N :=
  match s with
  | EmptyString => Some acc
  | String c s' =>
      match digit c with
      | Some d => parse_digits (10 * acc + d)%N s'
      | None => None
      end
  end.

Definition array_index (s : string) : option N :=
  match s with
  | EmptyString => None
  | String "0"%char EmptyString => Some 0%N
  | String "0"%char _ => None
  | _ =>
      match parse_digits 0%N s with
      | Some n => if (n <=? 4294967294)%N then Some n else None
      | None => None
      end
  end.

Definition index_value (s : string) : Z := Z.of_N (default 0%N (array_index s)).

Definition for_in_keys (d : Deps) : list string :=
  let keys := map fst d in
  Js.sort (λ a b, index_value a - index_value b)
          (filter (λ k, is_Some (array_index k)) keys)
  ++ filter (λ k, ¬ is_Some (array_index k)) keys.

(** [`${x}`] for an optional string. *)
Definition show (x : option string) : string := default "undefined" x.

(** The first loop: the diagnostics of missing dependencies, and the graph. *)
Definition missing (pluginNames : list (option string)) (d : list string) : list string :=
  filter (λ n, Some n ∉ pluginNames) d.

Definition missing_error (pluginNames : list (option string)) (p : NuxtPlugin) : list LogEntry :=
  match dependsOn p with
  | Some d =>
      match missing pluginNames d with
      | [] => []
      | m => [ConsoleError ("Plugin `" +:+ show (name p) +:+ "` depends on `" +:+
                            Js.join ", " m +:+ "` but they are not registered.")]
      end
  | None => []
  end.

Definition add_node (p : NuxtPlugin) (d : Deps) : Deps :=
  match name p with
  | Some n => if Js.truthy n then assign n (default [] (dependsOn p)) d else d
  | None => d
  end.

Definition build_deps (plugins : list NuxtPlugin) : Deps :=
  foldl (λ d p, add_node p d) [] plugins.

(** [arr.flatMap(f)] where [f] returns an array and logs: the arrays and the
    logs are concatenated in order; [None] is a recursion that ran out of
    fuel. *)
Fixpoint flatMap (f : string → option (list string * list LogEntry)) (l : list string)
  : option (list string * list LogEntry) :=
  match l with
  | [] => Some ([], [])
  | x :: l' =>
      match f x with
      | Some (r, log) =>
          match flatMap f l' with
          | Some (r', log') => Some (r ++ r', log ++ log')
          | None => None
          end
      | None => None
      end
  end.

Definition cycle_error (visited : list string) (n : string) : LogEntry :=
  ConsoleError ("Circular dependency detected in plugins: " +:+
                Js.join " -> " visited +:+ " -> " +:+ n).

(** [checkDeps(name, visited)]: its returned array and what it logs.  Every
    recursive call receives its own copy [[...visited]] of the path, so
    [visited.push(name)] is seen by the calls below it only. *)
Fixpoint checkDeps (fuel : nat) (deps : Deps) (n : string) (visited : list string)
  : option (list string * list LogEntry) :=
  match fuel with
  | O => None
  | S fuel' =>
      if Js.includes visited n then Some ([], [cycle_error visited n])
      else
        let visited' := visited ++ [n] in
        match get n deps with
        | Some (dep :: ds) => flatMap (λ dep, checkDeps fuel' deps dep visited') (dep :: ds)
        | _ => Some ([], [])
        end
  end.

(** The last loop; the arrays returned by [checkDeps] are dropped. *)
Fixpoint check_all (fuel : nat) (deps : Deps) (names : list string) : option (list LogEntry) :=
  match names with
  | [] => Some []
  | n :: rest =>
      match checkDeps fuel deps n [] with
      | Some (_, log) =>
          match check_all fuel deps rest with
          | Some log' => Some (log ++ log')
          | None => None
          end
      | None => None
      end
  end.

(** What [checkForCircularDependencies] writes to the console; [None] if the
    fuel does not suffice. *)
Definition checkForCircularDependencies_fuel (fuel : nat) (_plugins : list NuxtPlugin)
  : option (list LogEntry) :=
  let pluginNames := map name _plugins in
  let deps := build_deps _plugins in
  match check_all fuel deps (for_in_keys deps) with
  | Some cycles => Some (concat (map (missing_error pluginNames) _plugins) ++ cycles)
  | None => None
  end.

(** A path never holds a name twice, and every name on it is a key of the
    graph, so one more call than there are keys is deep enough. *)
Definition checkForCircularDependencies (_plugins : list NuxtPlugin) : option (list LogEntry) :=
  checkForCircularDependencies_fuel (S (length (build_deps _plugins))) _plugins.

End Plugins.

(** ** generateApp (app.ts): compiling the templates into the vfs *)

Module App.

(** A normalised template: its file name, its destination when it has one
    (the empty string is falsy, like an absent [dst]), whether it is written
    to disk, and its content as a function of the template context.
    compileTemplate of @nuxt/kit evaluates that function; [inr e] is a
    rejected promise. *)
Record Template (Ctx : Type) := mkTemplate {
  filename : string;
  dst : string;
  write : bool;
  compileTemplate : Ctx → string + string
}.
Arguments mkTemplate {Ctx}.
Arguments filename {Ctx}.
Arguments dst {Ctx}.
Arguments write {Ctx}.
Arguments compileTemplate {Ctx}.

(** [\w] *)
Definition is_word (c : ascii) : bool :=
  let n := nat_of_ascii c in
  (((48 <=? n) && (n <=? 57)) || ((65 <=? n) && (n <=? 90))
   || ((97 <=? n) && (n <=? 122)) || (n =? 95))%nat.

Fixpoint all_word (s : string) : bool :=
  match s with
  | EmptyString => true
  | String c s' => is_word c && all_word s'
  end.

(** [s.replace(/\.\w+$/, '')]: the match, if any, starts at the last dot and
    runs to the end of the string. *)
Fixpoint strip_ext (s : string) : string :=
  match s with
  | EmptyString => EmptyString
  | String c s' =>
      if Ascii.eqb c "." && Js.truthy s' && all_word s' then EmptyString
      else String c (strip_ext s')
  end.

(** [s.replace(/\//g, '\\')] *)
Fixpoint backslashes (s : string) : string :=
  match s with
  | EmptyString => EmptyString
  | String c s' => String (if Ascii.eqb c "/" then "\"%char else c) (backslashes s')
  end.

(** What one pass has done so far: the vfs, the queued writes (path and
    contents, in the order they were queued) and the logged errors.  A pass
    is the part of generateApp from the compilation of the normalised
    templates to the writes; resolveApp, the hooks and the timing of the
    compilations are left out. *)
Record State := mkState {
  st_vfs : gmap string string;
  st_writes : list (string * string);
  st_log : list LogEntry
}.

Section GenerateApp.
Context {Ctx : Type}.
(** [resolve] of pathe, [nuxt.options.buildDir], whether
    [process.platform] is win32, and the template context. *)
Variable resolve : string → string → string.
Variable buildDir : string.
Variable win32 : bool.
Variable templateContext : Ctx.

Definition fullPath (t : Template Ctx) : string :=
  if Js.truthy (dst t) then dst t else resolve buildDir (filename t).

Definition aliasPath (t : Template Ctx) : string :=
  "#build/" +:+ strip_ext (filename t).

(** The keys of the vfs a modified template is stored under. *)
Definition stored_keys (t : Template Ctx) : list string :=
  fullPath t :: aliasPath t :: (if win32 then [backslashes (fullPath t)] else []).

(** Every callback runs up to its [await] while the array is mapped, so
    all the [oldContents] are read from the vfs as it is when the pass
    starts, [vfs0].  [template.modified] stays undefined when compiling
    fails. *)
Definition modified (vfs0 : gmap string string) (t : Template Ctx) : option bool :=
  match compileTemplate t templateContext with
  | inl contents => Some (negb (bool_decide (vfs0 !! fullPath t = Some contents)))
  | inr _ => None
  end.

(** The rest of a callback, run when its template has been compiled. *)
Definition settle (vfs0 : gmap string string) (st : State) (t : Template Ctx) : State :=
  match compileTemplate t templateContext with
  | inl contents =>
      if bool_decide (vfs0 !! fullPath t = Some contents) then st
      else
        let vfs1 := <[fullPath t := contents]> (st_vfs st) in
        let vfs2 := <[aliasPath t := contents]> vfs1 in
        let vfs3 := if win32 then <[backslashes (fullPath t) := contents]> vfs2 else vfs2 in
        {| st_vfs := vfs3;
           st_writes := if write t then st_writes st ++ [(fullPath t, contents)]
                        else st_writes st;
           st_log := st_log st |}
  | inr e =>
      {| st_vfs := st_vfs st;
         st_writes := st_writes st;
         st_log := st_log st ++
           [LoggerError ("Could not compile template `" +:+ filename t +:+ "`.")] |}
  end.

(** [filteredTemplates] *)
Definition filteredTemplates (filter_opt : option (Template Ctx → bool))
    (templates : list (Template Ctx)) : list (Template Ctx) :=
  match filter_opt with
  | Some f => filter (λ t, f t = true) templates
  | None => templates
  end.

(** One pass over the templates, given in the order in which their
    compilations complete (any arrangement of [filteredTemplates]). *)
Definition compile_pass (vfs0 : gmap string string) (settled : list (Template Ctx)) : State :=
  foldl (settle vfs0) {| st_vfs := vfs0; st_writes := []; st_log := [] |} settled.

(** [for (const write of writes) { write() }] on the files of the disk. *)
Definition commit (disk : gmap string string) (writes : list (string * string))
  : gmap string string :=
  foldl (λ d w, <[w.1 := w.2]> d) disk writes.

End GenerateApp.

End App.

(** ** resolveApp (app.ts): layouts, middleware, plugins, de-duplication *)

Module ResolveApp.

Record NuxtLayout := mkLayout { layout_name : string; layout_file : string }.

(** [app.layouts] is a plain object ([{}]), so behind its own properties
    are the members of [Object.prototype]. *)
Definition object_prototype_keys : list string :=
  ["constructor"; "__defineGetter__"; "__defineSetter__"; "hasOwnProperty";
   "__lookupGetter__"; "__lookupSetter__"; "isPrototypeOf"; "propertyIsEnumerable";
   "toString"; "valueOf"; "__proto__"; "toLocaleString"].

(** A value found in [app.layouts]: a layout, or the member of
    [Object.prototype] of the given name (a function, or the prototype
    itself for [__proto__]); both are truthy. *)
Inductive LayoutSlot :=
| Layout (l : NuxtLayout)
| Inherited (member : string).

(** [layouts[name]] on the own properties [m]: an own property, else the
    inherited member, else [undefined]. *)
Definition layouts_get (m : gmap string LayoutSlot) (name : string) : option LayoutSlot :=
  match m !! name with
  | Some v => Some v
  | None => if Js.includes object_prototype_keys name then Some (Inherited name) else None
  end.

(** [layouts[name] = v]: an own property is created or overwritten (the
    inherited members are writable), except for [__proto__], whose setter
    sets the prototype and creates no property; it is only ever given the
    prototype it has read. *)
Definition layouts_set (name : string) (v : LayoutSlot) (m : gmap string LayoutSlot)
    : gmap string LayoutSlot :=
  if String.eqb name "__proto__" then m else <[name := v]> m.

Record NuxtMiddleware := mkMiddleware {
  mw_name : string;
  mw_path : string;
  mw_global : bool
}.

(** An entry of a [plugins] option: a path or a plugin object. *)
Inductive PluginInput :=
| PluginPath (path : string)
| PluginObject (p : NuxtPlugin).

(** The fields of a layer's [config], and of [nuxt.options], that resolveApp
    reads.  An absent [dir.*] or [plugins] is [None]. *)
Record Config := mkConfig {
  rootDir : string;
  srcDir : string;
  dir_layouts : option string;
  dir_middleware : option string;
  dir_plugins : option string;
  dir_pages : option string;
  plugins : option (list PluginInput);
  extensions : list string
}.

(** The part of [app] that the loops over layouts, middleware and plugins
    assign; the components and the app configs are left out. *)
Record NuxtApp := mkApp {
  app_layouts : gmap string LayoutSlot;
  app_middleware : list NuxtMiddleware;
  app_plugins : list NuxtPlugin
}.

(** Modelled from the spec: [uniqueBy] of ./utils, which is not among the
    sources.  The specification has the entries de-duplicated by a key.
    Which entry of a key the helper keeps is read off its use at line 177 of
    app.ts, where the middleware is reversed before the call and the result
    reversed again so that the last one of a name is kept: the helper keeps
    the first entry of each key, in the order of the array. *)
Fixpoint uniqueBy_seen {A : Type} (key : A → string) (seen : list string) (arr : list A) : list A :=
  match arr with
  | [] => []
  | item :: rest =>
      if Js.includes seen (key item) then uniqueBy_seen key seen rest
      else item :: uniqueBy_seen key (key item :: seen) rest
  end.

Definition uniqueBy {A : Type} (key : A → string) (arr : list A) : list A :=
  uniqueBy_seen key [] arr.

(** The other reading of the helper, which would keep the last entry of
    each key in the order of the array; it is used to show that the
    statement of the specification does not depend on this choice. *)
Definition uniqueBy_last {A : Type} (key : A → string) (arr : list A) : list A :=
  reverse (uniqueBy key (reverse arr)).

Section ResolveApp.
(** [resolveFiles], [normalizePlugin] and [resolvePath] after [resolveAlias]
    of @nuxt/kit, [resolve] and [relative] of pathe, [getNameFromPath] and
    [hasSuffix] of ./utils, the [app:resolve] hook, and the de-duplicating
    helper. *)
Variable resolveFiles : string → list string → list string.
Variable normalizePlugin : PluginInput → NuxtPlugin.
Variable resolvePath : string → string.
Variable resolve : string → string → string.
Variable relative : string → string → string.
Variable getNameFromPath : string → option string → string.
Variable hasSuffix : string → string → bool.
Variable callHook_app_resolve : NuxtApp → NuxtApp.
Variable unique : ∀ A : Type, (A → string) → list A → list A.

Variable options : Config.
Variable layerConfigs : list Config.

(** [(config.rootDir === nuxt.options.rootDir ? nuxt.options : config).dir?.x || d] *)
Definition dir_of (field : Config → option string) (d : string) (config : Config) : string :=
  let c := if String.eqb (rootDir config) (rootDir options) then options else config in
  match field c with
  | Some x => if Js.truthy x then x else d
  | None => d
  end.

Definition exts : string := "{" +:+ Js.join "," (extensions options) +:+ "}".

(** *** Layouts *)

Definition layout_warning (file : string) : LogEntry :=
  Warn ("No layout name could be resolved for `~/" +:+ relative (srcDir options) file +:+
        "`. Bear in mind that `index` is ignored for the purpose of creating a layout name.")
       None.

Definition layoutFiles (config : Config) : list string :=
  resolveFiles (srcDir config) [dir_of dir_layouts "layouts" config +:+ "/**/*" +:+ exts].

Definition layoutName (config : Config) (file : string) : string :=
  getNameFromPath file (Some (resolve (srcDir config) (dir_of dir_layouts "layouts" config))).

(** The body of the inner loop.
    [app.layouts[name] = app.layouts[name] || { name, file }]: what is found
    under the name, own or inherited, is assigned back; a new layout is
    assigned only when nothing is found.  The map holds the own properties
    of [app.layouts]. *)
Definition add_layout (config : Config) (st : gmap string LayoutSlot * list LogEntry)
    (file : string) : gmap string LayoutSlot * list LogEntry :=
  let name := layoutName config file in
  if Js.truthy name then
    (layouts_set name
       (match layouts_get st.1 name with
        | Some found => found
        | None => Layout (mkLayout name file)
        end) st.1, st.2)
  else (st.1, st.2 ++ [layout_warning file]).

Definition resolve_layouts : gmap string LayoutSlot * list LogEntry :=
  foldl (λ st config, foldl (add_layout config) st (layoutFiles config)) (∅, []) layerConfigs.

(** *** Middleware, the layers first *)

Definition reversedConfigs : list Config := reverse layerConfigs.

Definition middleware_warning (file : string) : LogEntry :=
  Warn ("No middleware name could be resolved for `~/" +:+ relative (srcDir options) file +:+
        "`. Bear in mind that `index` is ignored for the purpose of creating a middleware name.")
       None.

Definition middlewareFiles (config : Config) : list string :=
  resolveFiles (srcDir config) [dir_of dir_middleware "middleware" config +:+ "/*" +:+ exts].

Definition add_middleware (st : list NuxtMiddleware * list LogEntry) (file : string)
    : list NuxtMiddleware * list LogEntry :=
  let name := getNameFromPath file None in
  if Js.truthy name then
    (st.1 ++ [mkMiddleware name file (hasSuffix file ".global")], st.2)
  else (st.1, st.2 ++ [middleware_warning file]).

Definition resolve_middleware : list NuxtMiddleware * list LogEntry :=
  foldl (λ st config, foldl add_middleware st (middlewareFiles config)) ([], []) reversedConfigs.

(** *** Plugins, the extended layers first *)

Definition pluginFiles (config : Config) : list string :=
  if Js.truthy (srcDir config) then
    resolveFiles (srcDir config)
      [dir_of dir_plugins "plugins" config +:+ "/*" +:+ exts;
       dir_of dir_plugins "plugins" config +:+ "/*/index" +:+ exts]
  else [].

Definition layer_plugins (config : Config) : list NuxtPlugin :=
  map normalizePlugin (default [] (plugins config) ++ map PluginPath (pluginFiles config)).

Definition scanned_plugins : list NuxtPlugin :=
  concat (map layer_plugins reversedConfigs).

(** [for (const p of [...nuxt.options.plugins].reverse())]: a plugin of the
    options whose source is not there yet is put at the front. *)
Definition add_back (ps : list NuxtPlugin) (p : PluginInput) : list NuxtPlugin :=
  let plugin := normalizePlugin p in
  if bool_decide (Exists (λ q, src q = src plugin) ps) then ps else plugin :: ps.

Definition resolve_plugins : list NuxtPlugin :=
  foldl add_back scanned_plugins (reverse (default [] (plugins options))).

(** *** resolvePaths and the two de-duplications *)

Definition resolve_mw_path (m : NuxtMiddleware) : NuxtMiddleware :=
  if Js.truthy (mw_path m) then mkMiddleware (mw_name m) (resolvePath (mw_path m)) (mw_global m)
  else m.

Definition resolve_plugin_src (p : NuxtPlugin) : NuxtPlugin :=
  if Js.truthy (src p)
  then {| src := resolvePath (src p); mode := mode p; name := name p;
          order := order p; dependsOn := dependsOn p |}
  else p.

(** Lines 177 and 178. *)
Definition dedupe_first (app : NuxtApp) : NuxtApp :=
  {| app_layouts := app_layouts app;
     app_middleware :=
       reverse (unique _ mw_name (map resolve_mw_path (reverse (app_middleware app))));
     app_plugins := unique _ src (map resolve_plugin_src (app_plugins app)) |}.

(** Lines 193 and 194. *)
Definition dedupe_second (app : NuxtApp) : NuxtApp :=
  {| app_layouts := app_layouts app;
     app_middleware := unique _ mw_name (map resolve_mw_path (app_middleware app));
     app_plugins := unique _ src (map resolve_plugin_src (app_plugins app)) |}.

(** The three collections after resolveApp, and the warnings. *)
Definition resolveApp : NuxtApp * list LogEntry :=
  let '(layouts, log1) := resolve_layouts in
  let '(middleware, log2) := resolve_middleware in
  let app := {| app_layouts := layouts; app_middleware := middleware;
                app_plugins := resolve_plugins |} in
  (dedupe_second (callHook_app_resolve (dedupe_first app)), log1 ++ log2).
End ResolveApp.

End ResolveApp.

(** ** The pages module: isPagesEnabled, processPages, isPage *)

Module Pages.

(** A page of the tree; an absent [file] or [children] is [None]. *)
#[local] Unset Elimination Schemes.
Inductive NuxtPage :=
| mkPage (path : string) (file : option string) (children : option (list NuxtPage)).
#[local] Set Elimination Schemes.

Definition path (p : NuxtPage) : string := let 'mkPage x _ _ := p in x.
Definition file (p : NuxtPage) : option string := let 'mkPage _ x _ := p in x.
Definition children (p : NuxtPage) : option (list NuxtPage) := let 'mkPage _ _ x := p in x.

(** [.*] up to the end of the string: [.] matches every character but the
    line terminators LF, CR, U+2028 and U+2029 (the last two are the bytes
    226 128 168 and 226 128 169). *)
Fixpoint dot_star (s : string) : bool :=
  match s with
  | EmptyString => true
  | String c s' =>
      let n := nat_of_ascii c in
      if ((n =? 10) || (n =? 13))%nat then false
      else
        match s' with
        | String c1 (String c2 _) =>
            if ((n =? 226) && (nat_of_ascii c1 =? 128)
                && ((nat_of_ascii c2 =? 168) || (nat_of_ascii c2 =? 169)))%nat
            then false else dot_star s'
        | _ => dot_star s'
        end
  end.

Definition drop_last (n : nat) (s : string) : string :=
  String.substring 0 (String.length s - n) s.

(** [OPTIONAL_PARAM_RE.test(s)]: from the start of the string an optional
    slash and a colon, then anything on one line, and at the end of the
    string either a question mark or the catch-all suffix (a parenthesised
    dot-star followed by a star). *)
Definition OPTIONAL_PARAM_RE (s : string) : bool :=
  let s1 := match s with String "/"%char r => r | _ => s end in
  match s1 with
  | String ":"%char r =>
      (Js.endsWith "?" r && dot_star (drop_last 1 r))
      || (Js.endsWith "(.*)*" r && dot_star (drop_last 5 r))
  | _ => false
  end.

(** [s.includes(':')] *)
Fixpoint includes_colon (s : string) : bool :=
  match s with
  | EmptyString => false
  | String c s' => Ascii.eqb c ":" || includes_colon s'
  end.

(** [set.add(x)] on a [Set<string>], kept in insertion order. *)
Definition set_add (x : string) (set : list string) : list string :=
  if Js.includes set x then set else set ++ [x].

(** [!page.children?.length] *)
Definition no_children (p : NuxtPage) : bool :=
  match children p with
  | Some (_ :: _) => false
  | _ => true
  end.

Section ProcessPages.
(** [joinURL] of ufo. *)
Variable joinURL : string → string → string.

(** The body of the loop of processPages for one page, on the set
    [prerenderRoutes]; the inner loop is processPages on the children. *)
Fixpoint processPage (currentPath : string) (set : list string) (page : NuxtPage) : list string :=
  let set1 :=
    if OPTIONAL_PARAM_RE (path page) && no_children page then set_add currentPath set
    else set in
  if includes_colon (path page) then set1
  else
    let route := joinURL currentPath (path page) in
    let set2 := set_add route set1 in
    match page with
    | mkPage _ _ (Some cs) =>
        (fix processPages (set : list string) (pages : list NuxtPage) : list string :=
           match pages with
           | [] => set
           | p :: rest => processPages (processPage route set p) rest
           end) set2 cs
    | mkPage _ _ None => set2
    end.

Definition processPages (pages : list NuxtPage) (currentPath : string) (set : list string)
  : list string :=
  foldl (processPage currentPath) set pages.

(** The [pages:extend] hook: the set is cleared, then filled from the root. *)
Definition prerenderRoutes (pages : list NuxtPage) : list string :=
  processPages pages "/" [].
End ProcessPages.

(** [isPage(file, pages)]; [in_children file page] is
    [page.children && isPage(file, page.children)]. *)
Definition is_file (f : string) (page : NuxtPage) : bool :=
  match file page with
  | Some g => String.eqb g f
  | None => false
  end.

Fixpoint in_children (f : string) (page : NuxtPage) : bool :=
  match page with
  | mkPage _ _ (Some cs) => existsb (is_file f) cs || existsb (in_children f) cs
  | mkPage _ _ None => false
  end.

Definition isPage (f : string) (pages : option (list NuxtPage)) : bool :=
  match pages with
  | None => false
  | Some ps => existsb (is_file f) ps || existsb (in_children f) ps
  end.

(** What isPagesEnabled looks at, in order. *)
Inductive Consulted :=
| RouterOptionsFiles
| PagesDir (dir : string)
| PagesRoutes
| PagesExtendHook.

Section IsPagesEnabled.
(** The result of resolveRouterOptions (each file with its [optional]
    flag), [isNonEmptyDir], [pagesDirs], the result of resolvePagesRoutes
    and the [pages:extend] hook. *)
Variable routerOptionsFiles : list (string * bool).
Variable isNonEmptyDir : string → bool.
Variable pagesDirs : list string.
Variable resolvePagesRoutes : list NuxtPage.
Variable callHook_pages_extend : list NuxtPage → list NuxtPage.

(** [pagesDirs.some(dir => isNonEmptyDir(dir))] stops at the first hit. *)
Fixpoint some_nonEmptyDir (dirs : list string) : bool * list Consulted :=
  match dirs with
  | [] => (false, [])
  | d :: rest =>
      if isNonEmptyDir d then (true, [PagesDir d])
      else let '(b, seen) := some_nonEmptyDir rest in (b, PagesDir d :: seen)
  end.

(** [userPreference] is [Some b] when [typeof nuxt.options.pages] is
    boolean.  The result comes with what was consulted to find it. *)
Definition isPagesEnabled (userPreference : option bool) : bool * list Consulted :=
  match userPreference with
  | Some b => (b, [])
  | None =>
      match filter (λ p, p.2 = false) routerOptionsFiles with
      | _ :: _ => (true, [RouterOptionsFiles])
      | [] =>
          let '(b, seen) := some_nonEmptyDir pagesDirs in
          if b then (true, RouterOptionsFiles :: seen)
          else
            let pages := callHook_pages_extend resolvePagesRoutes in
            (match pages with _ :: _ => true | [] => false end,
             RouterOptionsFiles :: seen ++ [PagesRoutes; PagesExtendHook])
      end
  end.
End IsPagesEnabled.

End Pages.

(** ** The builder:watch handlers (nuxt.ts and the pages module) *)

Module Watch.

Inductive WatchEvent := add | addDir | change | unlink | unlinkDir.

Definition event_eqb (a b : WatchEvent) : bool :=
  match a, b with
  | add, add | addDir, addDir | change, change | unlink, unlink
  | unlinkDir, unlinkDir => true
  | _, _ => false
  end.

(** What a handler asks for: [callHook('restart', { hard })],
    [updateTemplates({ filter })] with the filter on the file name of a
    template, or nothing. *)
Inductive Action :=
| Restart (hard : bool)
| UpdateTemplates (filter : string → bool)
| NoAction.

(** An entry of [nuxt.options.watch]. *)
Inductive WatchPattern :=
| PatternString (s : string)
| PatternRegExp (test : string → bool).

(** A layer: [l.config.srcDir], [l.cwd] and the configuration. *)
Record Layer := mkLayer { config : ResolveApp.Config; cwd : string }.

(** [l.config.srcDir || l.cwd] *)
Definition layer_dir (l : Layer) : string :=
  if Js.truthy (ResolveApp.srcDir (config l)) then ResolveApp.srcDir (config l) else cwd l.

(** [RESTART_RE.test(s)] for
    [/^(app|error|app\.config)\.(js|ts|mjs|jsx|tsx|vue)$/i]. *)
Definition RESTART_names : list string :=
  base ← ["app"; "error"; "app.config"];
  ext ← ["js"; "ts"; "mjs"; "jsx"; "tsx"; "vue"];
  [base +:+ "." +:+ ext].

Definition RESTART_RE (s : string) : bool := Js.includes RESTART_names (Js.lower s).

Section Handlers.
(** [resolve], [relative] and [join] of pathe, and [nuxt.options]. *)
Variable resolve : string → string → string.
Variable relative : string → string → string.
Variable join : string → string → string.
Variable options : ResolveApp.Config.
Variable layers : list Layer.

(** *** initNuxt *)

(** The loop over [nuxt.options.watch]. *)
Fixpoint user_pattern_matches (path : string) (layerRelativePaths : list string)
    (patterns : list WatchPattern) : bool :=
  match patterns with
  | [] => false
  | PatternString pattern :: rest =>
      if String.eqb pattern path || Js.includes layerRelativePaths pattern then true
      else user_pattern_matches path layerRelativePaths rest
  | PatternRegExp test :: rest =>
      if existsb test layerRelativePaths then true
      else user_pattern_matches path layerRelativePaths rest
  end.

Definition core_watch (watchedPaths : list string) (watch : list WatchPattern)
    (event : WatchEvent) (relativePath : string) : Action * list LogEntry :=
  let path := resolve (ResolveApp.srcDir options) relativePath in
  if Js.includes watchedPaths path then (Restart true, [])
  else
    let layerRelativePaths := map (λ l, relative (layer_dir l) path) layers in
    if user_pattern_matches path layerRelativePaths watch then (Restart false, [])
    else
      let isFileChange := event_eqb event add || event_eqb event unlink in
      if isFileChange && RESTART_RE path then
        (Restart false,
         [Info ("`" +:+ path +:+ "` " +:+
                (if event_eqb event add then "created" else "removed"))])
      else (NoAction, []).

(** *** The pages module *)

Definition pagesDir (l : Layer) : string :=
  ResolveApp.dir_of options ResolveApp.dir_pages "pages" (config l).

Definition restartPaths : list string :=
  l ← layers; [join (layer_dir l) "app/router.options.ts"; join (layer_dir l) (pagesDir l)].

(** The first handler: the pages directory or the router options appear or
    disappear.  [pages] is [nuxt.options.pages] and [newSetting] what
    isPagesEnabled returns now. *)
Definition pages_restart_watch (pages newSetting : bool) (relativePath : string)
    : Action * list LogEntry :=
  let path := resolve (ResolveApp.srcDir options) relativePath in
  if existsb (λ p, String.eqb p path || Js.startsWith (p +:+ "/") path) restartPaths then
    if Bool.eqb pages newSetting then (NoAction, [])
    else (Restart false, [Info ("Pages " +:+ (if newSetting then "enabled" else "disabled"))])
  else (NoAction, []).

Definition updateTemplatePaths : list string :=
  l ← layers;
  [join (layer_dir l) (pagesDir l) +:+ "/";
   join (layer_dir l) (ResolveApp.dir_of options ResolveApp.dir_layouts "layouts" (config l)) +:+ "/";
   join (layer_dir l)
     (ResolveApp.dir_of options ResolveApp.dir_middleware "middleware" (config l)) +:+ "/"].

(** [template => template.filename === 'routes.mjs'] *)
Definition routes_only (filename : string) : bool := String.eqb filename "routes.mjs".

(** The second handler: the templates follow the pages.  [pages] is
    [nuxt.apps.default.pages]. *)
Definition pages_watch (scanPageMeta : bool) (pages : option (list Pages.NuxtPage))
    (event : WatchEvent) (relativePath : string) : Action :=
  let path := resolve (ResolveApp.srcDir options) relativePath in
  let shouldAlwaysRegenerate := scanPageMeta && Pages.isPage path pages in
  if event_eqb event change && negb shouldAlwaysRegenerate then NoAction
  else if shouldAlwaysRegenerate || existsb (λ dir, Js.startsWith dir path) updateTemplatePaths
       then UpdateTemplates routes_only
       else NoAction.
End Handlers.

End Watch.

(** ** The pages module: router options, sources and the prerendered routes *)

Module PagesHooks.

Section RouterOptions.
(** [findPath] of @nuxt/kit, [resolve] of pathe, [runtimeDir] and the
    [pages:routerOptions] hook.  A file is paired with its [optional]
    flag; a file of a layer has none, which counts as false. *)
Variable findPath : string → option string.
Variable resolve : string → string → string.
Variable runtimeDir : string.
Variable callHook_pages_routerOptions : list (string * bool) → list (string * bool).

(** The loop over the layers: [context.files.unshift({ path })]. *)
Definition add_router_options (files : list (string * bool)) (l : Watch.Layer)
    : list (string * bool) :=
  match findPath (resolve (ResolveApp.srcDir (Watch.config l)) "app/router.options") with
  | Some path => if Js.truthy path then (path, false) :: files else files
  | None => files
  end.

Definition resolveRouterOptions (layers : list Watch.Layer) : list (string * bool) :=
  callHook_pages_routerOptions
    ((resolve runtimeDir "router.options", true) :: foldl add_router_options [] layers).
End RouterOptions.

Section GetSources.
(** [relative] of pathe and [nuxt.options.srcDir]. *)
Variable relative : string → string → string.
Variable srcDir : string.

(** What [getSources] yields for one page: nothing when [Boolean(p.file)]
    is false, else the file and, when there are children, their sources. *)
Fixpoint getSources_page (p : Pages.NuxtPage) : list string :=
  match p with
  | Pages.mkPage _ (Some f) cs =>
      if Js.truthy f then
        relative srcDir f ::
        match cs with
        | Some l =>
            if (match l with [] => false | _ :: _ => true end)
            then (fix getSources (pages : list Pages.NuxtPage) : list string :=
                    match pages with
                    | [] => []
                    | x :: rest => getSources_page x ++ getSources rest
                    end) l
            else []
        | None => []
        end
      else []
  | Pages.mkPage _ None _ => []
  end.

Definition getSources (pages : list Pages.NuxtPage) : list string :=
  concat (map getSources_page pages).
End GetSources.

(** The [nitro:build:before] hook: when routes to prerender are configured,
    all of them but the root are added to the set, and the set becomes the
    list of routes; when none is configured nothing changes. *)
Definition add_configured (set : list string) (route : string) : list string :=
  if String.eqb route "/" then set else Pages.set_add route set.

Definition nitro_build_before (routes prerenderRoutes : list string) : list string :=
  match routes with
  | [] => routes
  | _ :: _ => foldl add_configured prerenderRoutes routes
  end.

End PagesHooks.

(** ** initNuxt (nuxt.ts): the modules of the layers *)

Module Modules.

(** A module as [nuxt.options.modules] gives it: [mod_ref] is the [mod] of
    the first loop, a name or path, or a module object, which is opaque
    here; [inlineOptions] is true of an entry that is a pair of a module and
    its options. *)
Inductive ModuleRef :=
| ModuleString (s : string)
| ModuleObject (id : nat).

Record ModuleEntry := mkEntry { mod_ref : ModuleRef; inlineOptions : bool }.

(** An element of [modulesToInstall]. *)
Inductive ToInstall :=
| Scanned (path : string)
| Listed (entry : ModuleEntry).

(** [watchedPaths], [specifiedModules] and the scanned part of
    [modulesToInstall].  The sets are kept in insertion order. *)
Record ScanState := mkScan {
  watchedPaths : list string;
  specifiedModules : list string;
  scanned : list string
}.

Section Scan.
(** [resolvePath] after [resolveAlias] and [resolveFiles] of @nuxt/kit, the
    field [dir.modules] of a configuration, [nuxt.options] with its
    [modules] and [_modules], and the configurations of the layers. *)
Variable resolvePath : string → string.
Variable resolveFiles : string → list string → list string.
Variable dir_modules : ResolveApp.Config → option string.
Variable options : ResolveApp.Config.
Variable options_modules : list ModuleEntry.
Variable options__modules : list ModuleEntry.
Variable layerConfigs : list ResolveApp.Config.

(** The first loop: the modules that the options give as strings. *)
Definition specify (specified : list string) (entry : ModuleEntry) : list string :=
  match mod_ref entry with
  | ModuleString s => Pages.set_add (resolvePath s) specified
  | ModuleObject _ => specified
  end.

Definition specified_by_options : list string := foldl specify [] options_modules.

Definition layerModules (config : ResolveApp.Config) : list string :=
  let modulesDir := ResolveApp.dir_of options dir_modules "modules" config in
  resolveFiles (ResolveApp.srcDir config)
    [modulesDir +:+ "/*" +:+ ResolveApp.exts options;
     modulesDir +:+ "/*/index" +:+ ResolveApp.exts options].

(** The body of the inner loop of the second one. *)
Definition scan_module (st : ScanState) (file : string) : ScanState :=
  let watched := Pages.set_add file (watchedPaths st) in
  if Js.includes (specifiedModules st) file
  then {| watchedPaths := watched; specifiedModules := specifiedModules st;
          scanned := scanned st |}
  else {| watchedPaths := watched;
          specifiedModules := specifiedModules st ++ [file];
          scanned := scanned st ++ [file] |}.

Definition scan_layers : ScanState :=
  foldl (λ st config, foldl scan_module st (layerModules config))
    {| watchedPaths := []; specifiedModules := specified_by_options; scanned := [] |}
    (reverse layerConfigs).

Definition modulesToInstall : list ToInstall :=
  map Scanned (scanned scan_layers)
  ++ map Listed options_modules ++ map Listed options__modules.
End Scan.

End Modules.

(** ** The pages module: inline route rules *)

Module RouteRules.

(** [s.includes(sub)] on strings. *)
Fixpoint contains (sub s : string) : bool :=
  String.prefix sub s
  || match s with
     | EmptyString => false
     | String _ s' => contains sub s'
     end.

Section InlineRules.
(** The type of a route rule, [extractRouteRules] of ./route-rules (which
    yields a rule, nothing, or throws an error, given by its [toString()]),
    [nuxt.vfs], [readFile], [relative] of pathe and [nuxt.options.srcDir]. *)
Context {Rule : Type}.
Variable extractRouteRules : string → option Rule + string.
Variable vfs : gmap string string.
Variable readFile : string → string + string.
Variable relative : string → string → string.
Variable srcDir : string.

(** [pageToGlobMap]: a page file is mapped to a glob or to [null]; and
    [inlineRules], keyed by glob. *)
Record Rules := mkRules {
  pageToGlobMap : gmap string (option string);
  inlineRules : gmap string Rule
}.

(** [pageToGlobMap[path]] when it is truthy. *)
Definition glob_of (st : Rules) (path : string) : option string :=
  match pageToGlobMap st !! path with
  | Some (Some glob) => if Js.truthy glob then Some glob else None
  | _ => None
  end.

(** [updatePage(path)]: the state and the log, or the error with which the
    promise is rejected (reading the file is outside the [try]). *)
Definition updatePage (st : Rules) (path : string) : Rules * list LogEntry + string :=
  let code := match vfs !! path with Some c => inl c | None => readFile path end in
  match code with
  | inr e => inr e
  | inl code =>
      match extractRouteRules code with
      | inl (Some extractedRule) =>
          match glob_of st path with
          | None =>
              inl (st, [LoggerError ("Could not set inline route rules in `~/" +:+
                          relative srcDir path +:+
                          "` as it could not be mapped to a Nitro route.")])
          | Some glob =>
              inl ({| pageToGlobMap := pageToGlobMap st;
                      inlineRules := <[glob := extractedRule]> (inlineRules st) |}, [])
          end
      | inl None =>
          match glob_of st path with
          | Some glob =>
              inl ({| pageToGlobMap := pageToGlobMap st;
                      inlineRules := delete glob (inlineRules st) |}, [])
          | None => inl (st, [])
          end
      | inr e =>
          if contains "Error parsing route rules" e
          then inl (st, [LoggerError ("Error parsing route rules within `~/" +:+
                           relative srcDir path +:+
                           "`. They should be JSON-serializable.")])
          else inl (st, [LoggerError e])
      end
  end.

(** The [builder:watch] handler, up to the call of [updateRouteConfig];
    [path] is [join(nuxt.options.srcDir, relativePath)]. *)
Definition rules_watch (st : Rules) (event : Watch.WatchEvent) (path : string)
    : Rules * list LogEntry + string :=
  match pageToGlobMap st !! path with
  | None => inl (st, [])
  | Some _ =>
      if Watch.event_eqb event Watch.unlink
      then inl ({| pageToGlobMap := delete path (pageToGlobMap st);
                   inlineRules := delete path (inlineRules st) |}, [])
      else updatePage st path
  end.
End InlineRules.

End RouteRules.

(** ** Data used in the statements *)

(** A plugin with its dependency declaration replaced. *)
Definition with_dependsOn (d : NuxtPlugin → option (list string)) (p : NuxtPlugin) : NuxtPlugin :=
  {| src := src p; mode := mode p; name := name p; order := order p;
     dependsOn := d p |}.

(** [{ name: 'a', dependsOn: ['b'] }] and [{ name: 'b', dependsOn: ['a'] }],
    with the source and mode that normalizePlugin gives them. *)
Definition plugin_a (src_a : string) : NuxtPlugin :=
  {| src := src_a; mode := "all"; name := Some "a"; order := None;
     dependsOn := Some ["b"] |}.

Definition plugin_b (src_b : string) : NuxtPlugin :=
  {| src := src_b; mode := "all"; name := Some "b"; order := None;
     dependsOn := Some ["a"] |}.

(** [resolve(base, file)] of pathe at an absolute, normalised [base] and a
    relative [file] made of plain segments. *)
Definition resolve_plain (base file : string) : string := base +:+ "/" +:+ file.



Definition template_routes : App.Template unit :=
  App.mkTemplate "routes.mjs" EmptyString true (λ _, inl "export default []").


(** The first entry of a list that has the key [k]. *)
Fixpoint entry_of {A : Type} (key : A → string) (k : string) (l : list A) : option A :=
  match l with
  | [] => None
  | x :: l' => if String.eqb (key x) k then Some x else entry_of key k l'
  end.

(** The files of all the layers, in the order the loops visit them. *)
Definition all_files (files : ResolveApp.Config → list string)
    (configs : list ResolveApp.Config) : list (ResolveApp.Config * string) :=
  concat (map (λ c, map (pair c) (files c)) configs).

(** The same plugin file registered twice, for the client first, and two
    middleware files of the same name, the one of a layer first. *)
Definition plugin_client : NuxtPlugin :=
  {| src := "/app/plugins/analytics.ts"; mode := "client"; name := None;
     order := None; dependsOn := None |}.

Definition plugin_all : NuxtPlugin :=
  {| src := "/app/plugins/analytics.ts"; mode := "all"; name := None;
     order := None; dependsOn := None |}.

Definition middleware_layer : ResolveApp.NuxtMiddleware :=
  ResolveApp.mkMiddleware "auth" "/layer/middleware/auth.ts" false.

Definition middleware_user : ResolveApp.NuxtMiddleware :=
  ResolveApp.mkMiddleware "auth" "/app/middleware/auth.ts" false.

Definition app_with_duplicates : ResolveApp.NuxtApp :=
  {| ResolveApp.app_layouts := ∅;
     ResolveApp.app_middleware := [middleware_layer; middleware_user];
     ResolveApp.app_plugins := [plugin_client; plugin_all] |}.

(** What the layouts loop keeps invariant: the key of a property is not
    empty and is the name derived from a file of a layer; the value is the
    layout of that name and file, or, for a name that [Object.prototype]
    has, the inherited member. *)
Definition layouts_named (layoutName : ResolveApp.Config → string → string)
    (configs : list ResolveApp.Config)
    (files : ResolveApp.Config → list string) (m : gmap string ResolveApp.LayoutSlot) : Prop :=
  ∀ k v, m !! k = Some v →
    k ≠ EmptyString
    ∧ ∃ c f, c ∈ configs ∧ f ∈ files c ∧ layoutName c f = k
             ∧ (v = ResolveApp.Layout (ResolveApp.mkLayout k f)
                ∨ (k ∈ ResolveApp.object_prototype_keys ∧ v = ResolveApp.Inherited k)).

(** [joinURL(base, segment)] of ufo for one segment: a segment that is
    empty or the root is skipped; otherwise it is appended, without its
    leading [/] or [./], to the base with a trailing slash. *)
Definition without_leading_slash (s : string) : string :=
  match s with
  | String "."%char (String "/"%char r) => r
  | String "/"%char r => r
  | _ => s
  end.

Definition ufo_joinURL (base segment : string) : string :=
  if Js.truthy segment && negb (String.eqb segment "/") then
    if Js.truthy base then
      (if Js.endsWith "/" base then base else base +:+ "/") +:+ without_leading_slash segment
    else segment
  else base.

(** The page tree of the specification, and the same routes as a tree. *)
Definition pages_flat : list Pages.NuxtPage :=
  [Pages.mkPage "/" None (Some []); Pages.mkPage "/blog/:slug?" None (Some [])].

Definition pages_nested : list Pages.NuxtPage :=
  [Pages.mkPage "/" None (Some []);
   Pages.mkPage "/blog" None (Some [Pages.mkPage ":slug?" None (Some [])])].

(** [relative(from, to)] of pathe for a normalised [to] below [from]. *)
Definition relative_plain (from to : string) : string :=
  if Js.startsWith (from +:+ "/") to
  then String.substring (S (String.length from)) (String.length to) to
  else to.

(** A project at /app with default directories, one layer, a local module
    and a page. *)
Definition options_app : ResolveApp.Config :=
  {| ResolveApp.rootDir := "/app"; ResolveApp.srcDir := "/app";
     ResolveApp.dir_layouts := None; ResolveApp.dir_middleware := None;
     ResolveApp.dir_plugins := None; ResolveApp.dir_pages := None;
     ResolveApp.plugins := None;
     ResolveApp.extensions := [".js"; ".jsx"; ".mjs"; ".ts"; ".tsx"; ".vue"] |}.

Definition layer_app : Watch.Layer := Watch.mkLayer options_app "/app".

Definition watched_modules : list string := ["/app/modules/hello.ts"].

Definition pages_app : option (list Pages.NuxtPage) :=
  Some [Pages.mkPage "/" (Some "/app/pages/index.vue") None].

(** A normalised absolute path: it starts with a slash or with a drive. *)
Definition is_absolute (p : string) : bool :=
  match p with
  | String c1 rest =>
      Ascii.eqb c1 "/"
      || match rest with
         | String c2 (String c3 _) => Ascii.eqb c2 ":" && Ascii.eqb c3 "/"
         | _ => false
         end
  | EmptyString => false
  end.

(** An edge of the dependency graph: [b] is among the dependencies stored
    for [a]. *)
Definition edge (deps : Plugins.Deps) (a b : string) : Prop :=
  ∃ l, Plugins.get a deps = Some l ∧ b ∈ l.

(** A plugin without dependencies, and a ranking of the names a and b. *)
Definition plugin_leaf (src_b : string) : NuxtPlugin :=
  {| src := src_b; mode := "all"; name := Some "b"; order := None;
     dependsOn := None |}.

Definition rank_ab (n : string) : nat := if String.eqb n "a" then 1%nat else 0%nat.

(** The plugin as it is when its metadata cannot be read, or as annotated. *)
Definition annotated (try_annotate : NuxtPlugin → NuxtPlugin + string) (p : NuxtPlugin) : NuxtPlugin :=
  match try_annotate p with
  | inl p' => p'
  | inr _ => p
  end.

(** A file system without files. *)
Definition no_file (path : string) : string + string := inr "ENOENT".

Definition no_metadata (code : string) : PluginMeta + string := inl (mkMeta None None None).

(** The write a template queues in a pass that starts from [vfs0], if any. *)
Definition queued_write {Ctx : Type} (resolve : string → string → string) (buildDir : string)
    (ctx : Ctx) (vfs0 : gmap string string) (t : App.Template Ctx) : option (string * string) :=
  match App.compileTemplate t ctx with
  | inl c =>
      if App.write t && negb (bool_decide (vfs0 !! App.fullPath resolve buildDir t = Some c))
      then Some (App.fullPath resolve buildDir t, c) else None
  | inr _ => None
  end.

(** Whether a template compiles. *)
Definition compiles {Ctx : Type} (ctx : Ctx) (t : App.Template Ctx) : bool :=
  match App.compileTemplate t ctx with inl _ => true | inr _ => false end.

(** A template that does not compile. *)
Definition template_broken : App.Template unit :=
  App.mkTemplate "broken.mjs" EmptyString true (λ _, inr "Invalid template").

(** The files of all the pages of a tree, parents first. *)
Fixpoint page_files (p : Pages.NuxtPage) : list (option string) :=
  match p with
  | Pages.mkPage _ f cs =>
      f :: match cs with
           | Some l =>
               (fix go (pages : list Pages.NuxtPage) : list (option string) :=
                  match pages with
                  | [] => []
                  | x :: rest => page_files x ++ go rest
                  end) l
           | None => []
           end
  end.

Definition tree_files (pages : list Pages.NuxtPage) : list (option string) :=
  concat (map page_files pages).

(** A dynamic page with a static child. *)
Definition page_user : Pages.NuxtPage :=
  Pages.mkPage "/user/:id" (Some "/app/pages/user/[id].vue")
    (Some [Pages.mkPage "settings" (Some "/app/pages/user/[id]/settings.vue") None]).

(** The router options file of a layer, if it has one. *)
Definition layer_router_file (findPath : string → option string)
    (resolve : string → string → string) (l : Watch.Layer) : option (string * bool) :=
  match findPath (resolve (ResolveApp.srcDir (Watch.config l)) "app/router.options") with
  | Some path => if Js.truthy path then Some (path, false) else None
  | None => None
  end.

(** The three kinds of directory whose files the routes template follows. *)
Definition template_dirs : list ((ResolveApp.Config → option string) * string) :=
  [(ResolveApp.dir_pages, "pages"); (ResolveApp.dir_layouts, "layouts");
   (ResolveApp.dir_middleware, "middleware")].

(** A list of names in which each is followed by one of its dependencies. *)
Fixpoint walk (deps : Plugins.Deps) (l : list string) : Prop :=
  match l with
  | a :: (b :: _) as rest => edge deps a b ∧ walk deps rest
  | _ => True
  end.

(** What a cycle diagnostic says: a walk through the graph whose last name
    has occurred before. *)
Definition real_cycle (deps : Plugins.Deps) (e : LogEntry) : Prop :=
  ∃ visited n, e = Plugins.cycle_error visited n ∧ n ∈ visited ∧ walk deps (visited ++ [n]).

(** A page that is mapped to a glob under which a rule is stored. *)
Definition rules_state : RouteRules.Rules (Rule:=string) :=
  RouteRules.mkRules {[ "/app/pages/about.vue" := Some "/about" ]}
                     {[ "/about" := "{ prerender: true }" ]}.

Definition extract_fails (code : string) : option string + string :=
  inr "Error: Error parsing route rules".

(** An extraction that finds the code itself as the rule. *)
Definition extract_code (code : string) : option string + string := inl (Some code).

(** A plugin with an explicit order, and three of them whose codes are in
    the vfs. *)
Definition plugin_order (src_p : string) (o : Js.JsNumber) : NuxtPlugin :=
  {| src := src_p; mode := "all"; name := None; order := Some o; dependsOn := None |}.

Definition vfs_orders : gmap string string :=
  {[ "/app/plugins/p1.ts" := "export default defineNuxtPlugin({ order: 1 })";
     "/app/plugins/pn.ts" := "export default defineNuxtPlugin({ order: NaN })";
     "/app/plugins/p0.ts" := "export default defineNuxtPlugin({ order: 0 })" ]}.

Definition plugins_nan_order : list NuxtPlugin :=
  [plugin_order "/app/plugins/p1.ts" (Js.Num 1);
   plugin_order "/app/plugins/pn.ts" Js.NaN;
   plugin_order "/app/plugins/p0.ts" (Js.Num 0)].

Definition plugins_numeric_order : list NuxtPlugin :=
  [plugin_order "/app/plugins/p1.ts" (Js.Num 1);
   plugin_leaf "/app/plugins/pn.ts";
   plugin_order "/app/plugins/p0.ts" (Js.Num (-20))].

(** The files of a project with a layout and a middleware that have no
    name, and a layout named after a member of [Object.prototype]; the
    names are derived as the last segment without its extension, where
    [index] gives no name. *)
Definition project_files (dir : string) (patterns : list string) : list string :=
  match patterns with
  | [p] =>
      if Js.startsWith "layouts/" p
      then [dir +:+ "/layouts/default.vue"; dir +:+ "/layouts/index.vue";
            dir +:+ "/layouts/constructor.vue"]
      else if Js.startsWith "middleware/" p
           then [dir +:+ "/middleware/auth.ts"; dir +:+ "/middleware/index.ts"]
           else []
  | _ => []
  end.

Definition project_name (file : string) (relativeTo : option string) : string :=
  if Js.endsWith "/index.vue" file || Js.endsWith "/index.ts" file then EmptyString
  else if Js.endsWith "/default.vue" file then "default"
  else if Js.endsWith "/constructor.vue" file then "constructor"
  else "auth".

Definition project_plugin (p : ResolveApp.PluginInput) : NuxtPlugin :=
  match p with
  | ResolveApp.PluginPath path =>
      {| src := path; mode := "all"; name := None; order := None; dependsOn := None |}
  | ResolveApp.PluginObject p => p
  end.

(** What a file leaves under the name [k] when nothing is there yet: its
    layout, or the inherited member when [Object.prototype] has the name. *)
Definition layout_slot (k : string) (cf : ResolveApp.Config * string) : ResolveApp.LayoutSlot :=
  if Js.includes ResolveApp.object_prototype_keys k
  then ResolveApp.Inherited k
  else ResolveApp.Layout (ResolveApp.mkLayout k cf.2).

(* ================================================================== *)
(** * Properties *)
(* ================================================================== *)

(** ** The stable sort *)

Section SortFacts.
Context {A : Type} (key : A → Z).

Let cmp (a b : A) : Z := key a - key b.
Let le (a b : A) : Prop := key a <= key b.

Lemma sort_insert_perm (x : A) (l : list A) : Js.sort_insert cmp x l ≡ₚ x :: l.
Proof.
  induction l as [|y l IH]; simpl; [done|].
  destruct (cmp x y <=? 0); [done|].
  rewrite IH. apply Permutation_swap.
Qed.

Lemma sort_perm (l : list A) : Js.sort cmp l ≡ₚ l.
Proof.
  induction l as [|x l IH]; simpl; [done|].
  unfold Js.sort in *. rewrite sort_insert_perm. by rewrite IH.
Qed.

Lemma sort_insert_sorted (x : A) (l : list A) :
  StronglySorted le l → StronglySorted le (Js.sort_insert cmp x l).
Proof.
  induction 1 as [|y l Hs IH Hall]; simpl.
  - repeat constructor.
  - destruct (Z.leb_spec (cmp x y) 0) as [Hle|Hgt];
      [unfold cmp in Hle | unfold cmp in Hgt].
    + constructor; [by constructor|].
      constructor; [unfold le; lia|].
      eapply Forall_impl; [exact Hall|]. unfold le. intros z Hz. simpl in Hz. lia.
    + constructor; [exact IH|].
      rewrite sort_insert_perm. constructor; [unfold le; lia | exact Hall].
Qed.

Lemma sort_sorted (l : list A) : StronglySorted le (Js.sort cmp l).
Proof.
  induction l as [|x l IH]; simpl; [constructor|].
  by apply sort_insert_sorted.
Qed.

(** Entries with the same key keep their relative order. *)
Lemma sort_insert_stable (k : Z) (x : A) (l : list A) :
  StronglySorted le l →
  filter (λ a, key a = k) (Js.sort_insert cmp x l) = filter (λ a, key a = k) (x :: l).
Proof.
  induction 1 as [|y l Hs IH Hall]; simpl; [done|].
  destruct (Z.leb_spec (cmp x y) 0) as [Hle|Hgt]; [done|]. unfold cmp in Hgt.
  rewrite !filter_cons. rewrite IH. rewrite filter_cons.
  destruct (decide (key y = k)) as [Hy|Hy], (decide (key x = k)) as [Hx|Hx];
    try done; lia.
Qed.

Lemma sort_stable (k : Z) (l : list A) :
  filter (λ a, key a = k) (Js.sort cmp l) = filter (λ a, key a = k) l.
Proof.
  induction l as [|x l IH]; [done|].
  change (Js.sort cmp (x :: l)) with (Js.sort_insert cmp x (Js.sort cmp l)).
  rewrite sort_insert_stable by apply sort_sorted.
  rewrite !filter_cons. by rewrite IH.
Qed.
End SortFacts.

(** The sort looks at the keys only: it commutes with every map that
    leaves the keys as they are. *)
Lemma sort_insert_map {A B : Type} (ka : A → Z) (kb : B → Z) (f : A → B) x l :
  (∀ a, kb (f a) = ka a) →
  Js.sort_insert (λ a b, kb a - kb b) (f x) (map f l)
  = map f (Js.sort_insert (λ a b, ka a - ka b) x l).
Proof.
  intros Hk. induction l as [|y l IH]; simpl; [done|].
  rewrite !Hk. destruct (ka x - ka y <=? 0); simpl; [done|]. by rewrite IH.
Qed.

Lemma sort_map {A B : Type} (ka : A → Z) (kb : B → Z) (f : A → B) l :
  (∀ a, kb (f a) = ka a) →
  Js.sort (λ a b, kb a - kb b) (map f l) = map f (Js.sort (λ a b, ka a - ka b) l).
Proof.
  intros Hk. induction l as [|x l IH]; simpl; [done|].
  unfold Js.sort in *. rewrite IH. by apply sort_insert_map.
Qed.

(** ** annotatePlugins *)

(** Annotating keeps every plugin, its source and the fields it declares. *)
Section AnnotateFacts.
Variable vfs : gmap string string.
Variable readFile : string → string + string.
Variable extractMetadata : string → PluginMeta + string.
Variable relative : string → string → string.
Variable rootDir : string.

Let try_annotate := Plugins.try_annotate vfs readFile extractMetadata.
Let collect := Plugins.collect vfs readFile extractMetadata relative rootDir.

Lemma try_annotate_inl p p' :
  try_annotate p = inl p' →
  src p' = src p ∧ (∀ n, name p = Some n → name p' = Some n)
  ∧ (∀ d, dependsOn p = Some d → dependsOn p' = Some d).
Proof.
  unfold try_annotate, Plugins.try_annotate.
  destruct (Plugins.read_code _ _ p) as [code|e]; [|done].
  destruct (extractMetadata code) as [m|e]; [|done].
  intros [= <-]. simpl. split; [done|].
  split; intros x ->; done.
Qed.

Lemma collect_src plugins : map src (collect plugins).1 = map src plugins.
Proof.
  induction plugins as [|p ps IH]; [done|]. unfold collect in *. simpl.
  destruct (Plugins.collect _ _ _ _ _ ps) as [qs log]. simpl in IH.
  destruct (Plugins.try_annotate _ _ _ p) as [p'|e] eqn:E; simpl; [|by rewrite IH].
  apply try_annotate_inl in E as [-> _]. by rewrite IH.
Qed.

Lemma collect_name plugins :
  Forall (λ p, is_Some (name p)) plugins →
  map name (collect plugins).1 = map name plugins.
Proof.
  induction 1 as [|p ps [n Hn] _ IH]; [done|]. unfold collect in *. simpl.
  destruct (Plugins.collect _ _ _ _ _ ps) as [qs log]. simpl in IH.
  destruct (Plugins.try_annotate _ _ _ p) as [p'|e] eqn:E; simpl; [|by rewrite IH].
  apply try_annotate_inl in E as (_ & Hname & _).
  by rewrite (Hname _ Hn), Hn, IH.
Qed.
End AnnotateFacts.

(** ** The sort with a comparator that can return NaN *)

Lemma sort_insert_any_perm {A : Type} (cmp : A → A → Z) (x : A) (l : list A) :
  Js.sort_insert cmp x l ≡ₚ x :: l.
Proof.
  induction l as [|y l IH]; simpl; [done|].
  destruct (cmp x y <=? 0); [done|].
  rewrite IH. apply Permutation_swap.
Qed.

Lemma sort_any_perm {A : Type} (cmp : A → A → Z) (l : list A) : Js.sort cmp l ≡ₚ l.
Proof.
  induction l as [|x l IH]; simpl; [done|].
  rewrite sort_insert_any_perm. by rewrite IH.
Qed.

Lemma sortBy_perm {A : Type} (comparefn : A → A → Js.JsNumber) (l : list A) :
  Js.sortBy comparefn l ≡ₚ l.
Proof. apply sort_any_perm. Qed.

Lemma sort_insert_ext_in {A : Type} (c1 c2 : A → A → Z) (x : A) (l : list A) :
  (∀ y, y ∈ l → c1 x y = c2 x y) → Js.sort_insert c1 x l = Js.sort_insert c2 x l.
Proof.
  induction l as [|y l IH]; intros H; simpl; [done|].
  rewrite (H y) by apply list_elem_of_here.
  rewrite IH; [done|]. intros z Hz. apply H. by apply list_elem_of_further.
Qed.

Lemma sort_ext_in {A : Type} (c1 c2 : A → A → Z) (l : list A) :
  (∀ x y, x ∈ l → y ∈ l → c1 x y = c2 x y) → Js.sort c1 l = Js.sort c2 l.
Proof.
  induction l as [|x l IH]; intros H; simpl; [done|].
  rewrite IH.
  - apply sort_insert_ext_in. intros y Hy. apply H; [apply list_elem_of_here|].
    apply list_elem_of_further. by rewrite <- (sort_any_perm c2 l).
  - intros a b Ha Hb. apply H; by apply list_elem_of_further.
Qed.

Lemma sort_insert_map_cmp {A B : Type} (f : A → B) (c1 : A → A → Z) (c2 : B → B → Z)
  (x : A) (l : list A) :
  (∀ a b, c2 (f a) (f b) = c1 a b) →
  Js.sort_insert c2 (f x) (map f l) = map f (Js.sort_insert c1 x l).
Proof.
  intros H. induction l as [|y l IH]; simpl; [done|].
  rewrite H. destruct (c1 x y <=? 0); [done|]. simpl. by rewrite IH.
Qed.

Lemma sort_map_cmp {A B : Type} (f : A → B) (c1 : A → A → Z) (c2 : B → B → Z) (l : list A) :
  (∀ a b, c2 (f a) (f b) = c1 a b) → Js.sort c2 (map f l) = map f (Js.sort c1 l).
Proof.
  intros H. induction l as [|x l IH]; simpl; [done|].
  rewrite IH. by apply sort_insert_map_cmp.
Qed.

Lemma StronglySorted_Forall_impl {A : Type} (R R' : A → A → Prop) (P : A → Prop) (l : list A) :
  (∀ a b, P a → P b → R a b → R' a b) →
  Forall P l → StronglySorted R l → StronglySorted R' l.
Proof.
  intros H HP HS. induction HS as [|x l HS IH Hall]; [constructor|].
  inversion HP as [|?? Hx Hl]; subst. constructor; [by apply IH|].
  rewrite Forall_forall in Hall, Hl. apply Forall_forall. intros y Hy.
  apply H; [done|by apply Hl|by apply Hall].
Qed.

Lemma filter_ext_Forall {A : Type} (P1 P2 : A → Prop)
  `{∀ x, Decision (P1 x)} `{∀ x, Decision (P2 x)} (l : list A) :
  Forall (λ x, P1 x ↔ P2 x) l → filter P1 l = filter P2 l.
Proof.
  induction 1 as [|x l Hx _ IH]; [done|].
  rewrite !filter_cons. rewrite IH.
  destruct (decide (P1 x)), (decide (P2 x)); tauto.
Qed.

(** Where no key is NaN, the comparator is the difference of integers. *)
Lemma sortBy_numbers {A : Type} (key : A → Js.JsNumber) (l : list A) :
  Forall (λ a, key a ≠ Js.NaN) l →
  Js.sortBy (λ a b, Js.sub (key a) (key b)) l
  = Js.sort (λ a b, Js.sortCompare (key a) - Js.sortCompare (key b)) l.
Proof.
  intros Hl. unfold Js.sortBy. apply sort_ext_in. intros x y Hx Hy.
  rewrite Forall_forall in Hl.
  pose proof (Hl x Hx) as Hkx. pose proof (Hl y Hy) as Hky.
  destruct (key x), (key y); done.
Qed.

(** C2 (amended). When no order key of the annotated plugins is NaN, the
    output of annotatePlugins is sorted by the order key, a plugin without
    an order counting as [orderMap.default]; it is a rearrangement of the
    annotated plugins, one for each plugin of the input, in which plugins
    of equal key keep their relative order, so the arrangement is fixed by
    the keys; and replacing the dependency declarations in any way leaves
    the arrangement as it is.  The diagnostics of
    checkForCircularDependencies are a log and nothing else, so they cannot
    reach the order either. *)
Theorem annotatePlugins_sorted_by_order_key
  (vfs : gmap string string) (readFile : string → string + string)
  (extractMetadata : string → PluginMeta + string) (orderMap_default : Z)
  (relative : string → string → string) (rootDir : string)
  (plugins : list NuxtPlugin) :
  let key := λ p, match order p with Some o => o | None => Js.Num orderMap_default end in
  let _plugins := (Plugins.collect vfs readFile extractMetadata relative rootDir plugins).1 in
  let out := (Plugins.annotatePlugins vfs readFile extractMetadata orderMap_default
                relative rootDir plugins).1 in
  Forall (λ p, key p ≠ Js.NaN) _plugins →
  StronglySorted (λ a b, Js.number_le (key a) (key b)) out
  ∧ out ≡ₚ _plugins
  ∧ map src _plugins = map src plugins
  ∧ (∀ k, filter (λ p, key p = k) out = filter (λ p, key p = k) _plugins)
  ∧ (∀ d, Js.sortBy (Plugins.compareOrder orderMap_default) (map (with_dependsOn d) _plugins)
          = map (with_dependsOn d) out).
Proof.
  intros key _plugins out Hnum.
  assert (Hsrc : map src _plugins = map src plugins) by apply collect_src.
  subst out _plugins. unfold Plugins.annotatePlugins.
  destruct (Plugins.collect _ _ _ _ _ plugins) as [ps log]. simpl in *.
  change (Plugins.compareOrder orderMap_default) with (λ a b : NuxtPlugin, Js.sub (key a) (key b)).
  set (zkey := λ p, Js.sortCompare (key p)).
  assert (Hout : Forall (λ p, key p ≠ Js.NaN) (Js.sortBy (λ a b, Js.sub (key a) (key b)) ps)).
  { rewrite Forall_forall in Hnum. apply Forall_forall. intros p Hp.
    apply Hnum. by rewrite <- (sortBy_perm (λ a b, Js.sub (key a) (key b)) ps). }
  split; [|split; [apply sortBy_perm|split; [exact Hsrc|split]]].
  - apply (StronglySorted_Forall_impl (λ a b, zkey a <= zkey b) _ (λ p, key p ≠ Js.NaN));
      [|exact Hout|rewrite (sortBy_numbers key ps Hnum); apply (sort_sorted zkey)].
    intros a b Ha Hb. unfold zkey. destruct (key a), (key b); done.
  - intros [z|].
    + rewrite (filter_ext_Forall (λ p, key p = Js.Num z) (λ p, zkey p = z) (Js.sortBy _ ps)).
      2:{ eapply Forall_impl; [exact Hout|]. intros p Hp. unfold zkey. cbv beta in *.
          destruct (key p); [|congruence]. simpl. split; congruence. }
      rewrite (filter_ext_Forall (λ p, key p = Js.Num z) (λ p, zkey p = z) ps).
      2:{ eapply Forall_impl; [exact Hnum|]. intros p Hp. unfold zkey. cbv beta in *.
          destruct (key p); [|congruence]. simpl. split; congruence. }
      rewrite (sortBy_numbers key ps Hnum). apply (sort_stable zkey).
    + rewrite (filter_ext_Forall (λ p, key p = Js.NaN) (λ _, False) (Js.sortBy _ ps)).
      2:{ eapply Forall_impl; [exact Hout|]. intros p Hp. cbv beta in *. split; [congruence|done]. }
      rewrite (filter_ext_Forall (λ p, key p = Js.NaN) (λ _, False) ps).
      2:{ eapply Forall_impl; [exact Hnum|]. intros p Hp. cbv beta in *. split; [congruence|done]. }
      clear. generalize (Js.sortBy (λ a b, Js.sub (key a) (key b)) ps). intros l.
      assert (Hnil : ∀ l' : list NuxtPlugin, filter (λ _, False) l' = []).
      { induction l' as [|x l' IH]; [done|]. rewrite filter_cons.
        destruct (decide False); [tauto|exact IH]. }
      by rewrite !Hnil.
  - intros d. unfold Js.sortBy. by apply sort_map_cmp.
Qed.

Lemma annotatePlugins_sorted_by_order_key_witness :
  StronglySorted
    (λ a b, Js.number_le (match order a with Some o => o | None => Js.Num 0 end)
                         (match order b with Some o => o | None => Js.Num 0 end))
    (Plugins.annotatePlugins vfs_orders no_file no_metadata 0 relative_plain "/app"
       plugins_numeric_order).1.
Proof.
  apply (annotatePlugins_sorted_by_order_key vfs_orders no_file no_metadata 0
           relative_plain "/app" plugins_numeric_order).
  vm_compute. repeat constructor; discriminate.
Defined.

(** C2 (as stated). With the orders 1, NaN and 0 the comparator returns NaN
    for every pair it is asked about, the sort leaves the plugins where
    they are, and the plugin of order 1 stays in front of the plugin of
    order 0. *)
Lemma annotatePlugins_nan_order_unsorted :
  (Plugins.annotatePlugins vfs_orders no_file no_metadata 0 relative_plain "/app"
     plugins_nan_order).1 = plugins_nan_order
  ∧ ¬ StronglySorted
        (λ a b, ¬ Js.number_lt (Plugins.orderKey 0 b) (Plugins.orderKey 0 a))
        (Plugins.annotatePlugins vfs_orders no_file no_metadata 0 relative_plain "/app"
           plugins_nan_order).1.
Proof.
  assert (H : (Plugins.annotatePlugins vfs_orders no_file no_metadata 0 relative_plain "/app"
                 plugins_nan_order).1 = plugins_nan_order) by (vm_compute; reflexivity).
  split; [exact H|]. rewrite H. intros Hs.
  inversion Hs as [|x l _ Hall]; subst.
  inversion Hall as [|y l' _ Hall']; subst.
  inversion Hall' as [|z l'' Hz _]; subst.
  apply Hz. vm_compute. reflexivity.
Qed.

(** ** checkForCircularDependencies *)

Lemma get_Some_key k d v : Plugins.get k d = Some v → k ∈ map fst d.
Proof.
  induction d as [|[k' v'] d IH]; simpl; [done|].
  destruct (String.eqb_spec k' k) as [->|Hne]; [intros _; apply list_elem_of_here|].
  intros H. apply list_elem_of_further, IH, H.
Qed.

Lemma checkDeps_S fuel deps n visited :
  Plugins.checkDeps (S fuel) deps n visited =
  if Js.includes visited n then Some ([], [Plugins.cycle_error visited n])
  else match Plugins.get n deps with
       | Some (dep :: ds) =>
           Plugins.flatMap (λ dep, Plugins.checkDeps fuel deps dep (visited ++ [n])) (dep :: ds)
       | _ => Some ([], [])
       end.
Proof. reflexivity. Qed.

Lemma flatMap_is_Some f l :
  (∀ x, x ∈ l → is_Some (f x)) → is_Some (Plugins.flatMap f l).
Proof.
  induction l as [|x l IH]; intros Hf; simpl; [by eexists|].
  destruct (Hf x) as [[r log] ->]; [set_solver|].
  destruct IH as [[r' log'] ->]; [intros; apply Hf; set_solver|]. by eexists.
Qed.

(** The path has no repetition and stays among the keys of the graph; this
    bounds its length, hence the depth of the traversal. *)
Lemma checkDeps_terminates fuel deps n visited :
  NoDup visited →
  (∀ x, x ∈ visited → x ∈ map fst deps) →
  (length deps < fuel + length visited)%nat →
  is_Some (Plugins.checkDeps fuel deps n visited).
Proof.
  revert n visited. induction fuel as [|fuel IH]; intros n visited Hnd Hsub Hlen.
  - exfalso. assert (length visited ≤ length (map fst deps))%nat.
    { apply submseteq_length, NoDup_submseteq; done. }
    rewrite length_map in *. lia.
  - rewrite checkDeps_S. unfold Js.includes. case_bool_decide as Hin; [by eexists|].
    destruct (Plugins.get n deps) as [[|dep ds]|] eqn:Hget; [by eexists| |by eexists].
    apply flatMap_is_Some. intros x _. apply IH.
    + apply NoDup_app. split; [done|]. split; [|apply NoDup_singleton].
      intros y Hy ->%list_elem_of_singleton. done.
    + intros y [Hy| ->%list_elem_of_singleton]%elem_of_app; [by apply Hsub|].
      by eapply get_Some_key.
    + rewrite length_app. simpl. lia.
Qed.

Lemma check_all_is_Some fuel deps names :
  (length deps < fuel)%nat → is_Some (Plugins.check_all fuel deps names).
Proof.
  intros Hlen. induction names as [|n names [log' IH]]; simpl; [by eexists|].
  destruct (checkDeps_terminates fuel deps n []) as [[r log] ->].
  - constructor.
  - intros x Hx. by apply elem_of_nil in Hx.
  - simpl. lia.
  - rewrite IH. by eexists.
Qed.

(** More fuel does not change a result. *)
Lemma flatMap_ext_Some f g l r :
  (∀ x r, f x = Some r → g x = Some r) →
  Plugins.flatMap f l = Some r → Plugins.flatMap g l = Some r.
Proof.
  intros Hfg. revert r. induction l as [|x l IH]; intros r; simpl; [done|].
  destruct (f x) as [[r1 log1]|] eqn:Hx; [|done]. rewrite (Hfg _ _ Hx).
  destruct (Plugins.flatMap f l) as [[r2 log2]|]; [|done].
  by rewrite (IH _ eq_refl).
Qed.

Lemma checkDeps_fuel_mono fuel fuel' deps n visited r :
  (fuel ≤ fuel')%nat →
  Plugins.checkDeps fuel deps n visited = Some r →
  Plugins.checkDeps fuel' deps n visited = Some r.
Proof.
  revert fuel' n visited r. induction fuel as [|fuel IH]; intros fuel' n visited r Hle; [done|].
  destruct fuel' as [|fuel']; [lia|]. rewrite !checkDeps_S.
  destruct (Js.includes visited n); [done|].
  destruct (Plugins.get n deps) as [[|dep ds]|]; [done| |done].
  apply flatMap_ext_Some. intros x rx. apply IH. lia.
Qed.

(** C3. For every list of plugins, cyclic dependency graphs included, the
    check returns (with its diagnostics) and has no failing path; a name
    that is already on the active path is reported as a cycle, the path in
    order followed by the name, and the branch is not followed further. *)
Theorem checkForCircularDependencies_terminates (_plugins : list NuxtPlugin) :
  (∃ log, Plugins.checkForCircularDependencies _plugins = Some log)
  ∧ (∀ fuel deps pre n post,
       Plugins.checkDeps (S fuel) deps n (pre ++ n :: post)
       = Some ([], [ConsoleError ("Circular dependency detected in plugins: " +:+
                      Js.join " -> " (pre ++ n :: post) +:+ " -> " +:+ n)])).
Proof.
  split.
  - unfold Plugins.checkForCircularDependencies, Plugins.checkForCircularDependencies_fuel.
    destruct (check_all_is_Some (S (length (Plugins.build_deps _plugins)))
                (Plugins.build_deps _plugins)
                (Plugins.for_in_keys (Plugins.build_deps _plugins))) as [log ->]; [lia|].
    by eexists.
  - intros fuel deps pre n post. rewrite checkDeps_S. unfold Js.includes.
    rewrite bool_decide_eq_true_2; [done|].
    apply elem_of_app. right. apply list_elem_of_here.
Qed.

(** ** The two plugins that depend on each other *)

Example for_in_keys_order :
  Plugins.for_in_keys [("b", []); ("10", []); ("a", []); ("2", []); ("01", [])]
  = ["2"; "10"; "b"; "a"; "01"].
Proof. vm_compute. reflexivity. Qed.

(** The claim as the specification has it, one diagnostic for the cycle
    a -> b -> a, does not hold: the traversal starts afresh from every key
    of the graph and meets the cycle once from [a] and once from [b]. *)
Lemma mutual_dependency_not_one_diagnostic :
  ¬ ∃ e, Plugins.checkForCircularDependencies [plugin_a "a.ts"; plugin_b "b.ts"] = Some [e].
Proof. intros [e H]. vm_compute in H. discriminate H. Qed.

(** C4 (amended). Both plugins are in the output of annotatePlugins,
    whatever the files hold, and checkForCircularDependencies on them logs
    two cycle diagnostics, a -> b -> a and then b -> a -> b, one for each
    plugin the traversal starts from. *)
Theorem mutual_dependency_two_diagnostics
  (vfs : gmap string string) (readFile : string → string + string)
  (extractMetadata : string → PluginMeta + string) (orderMap_default : Z)
  (relative : string → string → string) (rootDir src_a src_b : string) :
  let out := (Plugins.annotatePlugins vfs readFile extractMetadata orderMap_default
                relative rootDir [plugin_a src_a; plugin_b src_b]).1 in
  map name out ≡ₚ [Some "a"; Some "b"]
  ∧ map src out ≡ₚ [src_a; src_b]
  ∧ Plugins.checkForCircularDependencies [plugin_a src_a; plugin_b src_b]
    = Some [ConsoleError "Circular dependency detected in plugins: a -> b -> a";
            ConsoleError "Circular dependency detected in plugins: b -> a -> b"].
Proof.
  intros out. subst out. unfold Plugins.annotatePlugins.
  pose proof (collect_name vfs readFile extractMetadata relative rootDir
                [plugin_a src_a; plugin_b src_b]) as Hn.
  pose proof (collect_src vfs readFile extractMetadata relative rootDir
                [plugin_a src_a; plugin_b src_b]) as Hs.
  destruct (Plugins.collect _ _ _ _ _ _) as [ps log]. simpl in *.
  split; [|split].
  - rewrite <- Hn by (repeat constructor; by eexists).
    apply Permutation_map, sortBy_perm.
  - rewrite <- Hs.
    apply Permutation_map, sortBy_perm.
  - reflexivity.
Qed.

(** ** generateApp: the second pass *)

Section GenerateAppFacts.
Context {Ctx : Type}.
Variable resolve : string → string → string.
Variable buildDir : string.
Variable win32 : bool.
Variable ctx : Ctx.

Let fullPath := App.fullPath (Ctx:=Ctx) resolve buildDir.
Let stored_keys := App.stored_keys (Ctx:=Ctx) resolve buildDir win32.
Let settle := App.settle resolve buildDir win32 ctx.
Let modified := App.modified resolve buildDir ctx.


(** What a callback leaves under a key of the vfs. *)
Lemma settle_lookup vfs0 st x k :
  App.st_vfs (settle vfs0 st x) !! k =
  match App.compileTemplate x ctx with
  | inl cx =>
      if bool_decide (vfs0 !! fullPath x = Some cx) then App.st_vfs st !! k
      else if bool_decide (k ∈ stored_keys x) then Some cx else App.st_vfs st !! k
  | inr _ => App.st_vfs st !! k
  end.
Proof.
  unfold settle, App.settle, stored_keys, App.stored_keys, fullPath.
  destruct (App.compileTemplate x ctx) as [cx|e]; [|done].
  case_bool_decide as Hold; [done|]. simpl.
  destruct win32; simpl; rewrite !lookup_insert; case_bool_decide as Hk;
    rewrite !elem_of_cons, elem_of_nil in Hk; repeat case_decide;
    first [done | exfalso; intuition congruence | intuition congruence].
Qed.



Section OnePass.
Variable templates : list (App.Template Ctx).
Hypothesis no_clash :
  ∀ t t', t ∈ templates → t' ∈ templates → fullPath t ∈ stored_keys t' → t' = t.

End OnePass.
End GenerateAppFacts.

Example aliasPath_examples :
  App.strip_ext "routes.mjs" = "routes"
  ∧ App.strip_ext "types/app.d.ts" = "types/app.d"
  ∧ App.strip_ext "nitro.json-schema" = "nitro.json-schema"
  ∧ App.strip_ext "app." = "app."
  ∧ App.aliasPath template_routes = "#build/routes"
  ∧ App.fullPath resolve_plain "/app/.nuxt" template_routes = "/app/.nuxt/routes.mjs"
  ∧ App.backslashes "C:/app/.nuxt/routes.mjs" = "C:\app\.nuxt\routes.mjs".
Proof. vm_compute. repeat split; reflexivity. Qed.




(** ** resolveApp: entities without a name *)

Section ResolveAppFacts.
Variable resolveFiles : string → list string → list string.
Variable resolve : string → string → string.
Variable relative : string → string → string.
Variable getNameFromPath : string → option string → string.
Variable hasSuffix : string → string → bool.
Variable options : ResolveApp.Config.

Let add_middleware := ResolveApp.add_middleware relative getNameFromPath hasSuffix options.
Let add_layout := ResolveApp.add_layout resolve relative getNameFromPath options.
Let layoutName := ResolveApp.layoutName resolve getNameFromPath options.
Let named (file : string) : Prop := Js.truthy (getNameFromPath file None) = true.
Let mk (file : string) : ResolveApp.NuxtMiddleware :=
  ResolveApp.mkMiddleware (getNameFromPath file None) file (hasSuffix file ".global").

Lemma add_middleware_files st files :
  foldl add_middleware st files
  = (st.1 ++ map mk (filter named files),
     st.2 ++ map (ResolveApp.middleware_warning relative options)
               (filter (λ f, ¬ named f) files)).
Proof.
  revert st. induction files as [|f files IH]; intros [ms log]; simpl.
  - by rewrite !app_nil_r.
  - rewrite IH. rewrite !filter_cons. unfold add_middleware, ResolveApp.add_middleware, named.
    simpl. destruct (Js.truthy (getNameFromPath f None)) eqn:E; simpl.
    + by rewrite <- app_assoc.
    + by rewrite <- app_assoc.
Qed.

Lemma resolve_middleware_files st configs (files : ResolveApp.Config → list string) :
  foldl (λ st config, foldl add_middleware st (files config)) st configs
  = (st.1 ++ map mk (filter named (concat (map files configs))),
     st.2 ++ map (ResolveApp.middleware_warning relative options)
               (filter (λ f, ¬ named f) (concat (map files configs)))).
Proof.
  revert st. induction configs as [|c configs IH]; intros [ms log]; simpl.
  - by rewrite !app_nil_r.
  - rewrite IH, add_middleware_files. simpl.
    by rewrite !filter_app, !map_app, !app_assoc.
Qed.

Lemma add_layout_files configs files c st fs :
  c ∈ configs → (∀ f, f ∈ fs → f ∈ files c) →
  layouts_named layoutName configs files st.1 →
  layouts_named layoutName configs files (foldl (add_layout c) st fs).1
  ∧ (foldl (add_layout c) st fs).2
    = st.2 ++ map (ResolveApp.layout_warning relative options)
                (filter (λ f, Js.truthy (layoutName c f) = false) fs).
Proof.
  intros Hc. revert st. induction fs as [|f fs IH]; intros [m log] Hfs Hm; simpl.
  - by rewrite app_nil_r.
  - destruct (IH (add_layout c (m, log) f)) as [H1 H2].
    { intros g Hg. by apply Hfs, list_elem_of_further. }
    { unfold add_layout, ResolveApp.add_layout. simpl.
      fold (layoutName c f). destruct (Js.truthy (layoutName c f)) eqn:E; simpl; [|done].
      unfold ResolveApp.layouts_set, ResolveApp.layouts_get.
      destruct (String.eqb (layoutName c f) "__proto__"); [done|].
      intros k v. rewrite lookup_insert. case_decide as Hk; [|by apply Hm].
      destruct (m !! layoutName c f) as [v0|] eqn:Hl.
      { intros [= <-]. apply Hm. by rewrite <- Hk. }
      assert (Hne : k ≠ EmptyString).
      { intros Hempty. rewrite Hk, Hempty in E. done. }
      assert (Hf : f ∈ files c) by apply Hfs, list_elem_of_here.
      unfold Js.includes. case_bool_decide as Hp; intros [= <-].
      - split; [done|]. exists c, f. rewrite <- Hk. eauto 10.
      - split; [done|]. exists c, f. rewrite <- Hk. eauto 10. }
    split; [exact H1|]. rewrite H2. rewrite filter_cons.
    unfold add_layout at 1, ResolveApp.add_layout. simpl. fold (layoutName c f).
    destruct (Js.truthy (layoutName c f)) eqn:E; simpl.
    + done.
    + by rewrite <- app_assoc.
Qed.

Lemma resolve_layouts_files configs files st cs :
  (∀ c, c ∈ cs → c ∈ configs) →
  layouts_named layoutName configs files st.1 →
  let out := foldl (λ st c, foldl (add_layout c) st (files c)) st cs in
  layouts_named layoutName configs files out.1
  ∧ out.2 = st.2 ++ map (λ cf, ResolveApp.layout_warning relative options cf.2)
                      (filter (λ cf, Js.truthy (layoutName cf.1 cf.2) = false)
                         (all_files files cs)).
Proof.
  revert st. induction cs as [|c cs IH]; intros st Hcs Hm; simpl.
  - by rewrite app_nil_r.
  - destruct (add_layout_files configs files c st (files c)) as [H1 H2];
      [apply Hcs, list_elem_of_here|done|done|].
    destruct (IH (foldl (add_layout c) st (files c))) as [H3 H4];
      [intros d Hd; by apply Hcs, list_elem_of_further|done|].
    split; [exact H3|]. rewrite H4, H2. unfold all_files. simpl.
    rewrite filter_app, map_app, <- app_assoc. f_equal. f_equal.
    clear. induction (files c) as [|f fs IHf]; [done|]. simpl.
    rewrite !filter_cons. simpl. case_decide; simpl; by rewrite IHf.
Qed.
End ResolveAppFacts.

(** The de-duplicating helper returns some of the entries it is given. *)
Lemma uniqueBy_seen_elem {A : Type} (key : A → string) seen (l : list A) x :
  x ∈ ResolveApp.uniqueBy_seen key seen l → x ∈ l.
Proof.
  revert seen. induction l as [|y l IH]; intros seen; simpl; [done|].
  destruct (Js.includes seen (key y)).
  - intros H. apply list_elem_of_further. by eapply IH.
  - intros [->|H]%elem_of_cons; [apply list_elem_of_here|].
    apply list_elem_of_further. by eapply IH.
Qed.

(** C9. A layout or middleware file for which no name can be derived (the
    derived name is empty) gets a warning and is not stored.  The log of
    resolveApp is exactly the warnings of the layout files without a name
    followed by those of the middleware files without a name.  In what
    resolveApp hands to the [app:resolve] hook no property of the layouts
    has the empty key (each key is the name derived from a file, and its
    value is the layout of that file or, for a name that
    [Object.prototype] has, the inherited member) and no middleware has the
    empty name; the middleware collected is exactly the files that have a
    name.  After the hook the layouts are those of the hook and every
    middleware has the name of one of the hook: the de-duplication, a
    helper that returns entries of its argument, adds none.  resolveApp has
    no failing path. *)
Theorem resolveApp_drops_unnamed
  (resolveFiles : string → list string → list string)
  (normalizePlugin : ResolveApp.PluginInput → NuxtPlugin)
  (resolvePath : string → string)
  (resolve relative : string → string → string)
  (getNameFromPath : string → option string → string)
  (hasSuffix : string → string → bool)
  (callHook_app_resolve : ResolveApp.NuxtApp → ResolveApp.NuxtApp)
  (unique : ∀ A : Type, (A → string) → list A → list A)
  (options : ResolveApp.Config) (layerConfigs : list ResolveApp.Config) :
  (∀ (A : Type) (key : A → string) (l : list A) (x : A), x ∈ unique A key l → x ∈ l) →
  let layoutFiles := ResolveApp.layoutFiles resolveFiles options in
  let middlewareFiles :=
    concat (map (ResolveApp.middlewareFiles resolveFiles options) (reverse layerConfigs)) in
  let layoutName := ResolveApp.layoutName resolve getNameFromPath options in
  let layouts := ResolveApp.resolve_layouts resolveFiles resolve relative getNameFromPath
                   options layerConfigs in
  let middleware := ResolveApp.resolve_middleware resolveFiles relative getNameFromPath
                      hasSuffix options layerConfigs in
  let resolved := ResolveApp.dedupe_first resolvePath unique
                    (ResolveApp.mkApp layouts.1 middleware.1
                       (ResolveApp.resolve_plugins resolveFiles normalizePlugin
                          options layerConfigs)) in
  let out := ResolveApp.resolveApp resolveFiles normalizePlugin resolvePath resolve relative
               getNameFromPath hasSuffix callHook_app_resolve unique options layerConfigs in
  out.2 = map (λ cf, ResolveApp.layout_warning relative options cf.2)
            (filter (λ cf, Js.truthy (layoutName cf.1 cf.2) = false)
               (all_files layoutFiles layerConfigs))
          ++ map (ResolveApp.middleware_warning relative options)
               (filter (λ f, ¬ Js.truthy (getNameFromPath f None) = true) middlewareFiles)
  ∧ out.1 = ResolveApp.dedupe_second resolvePath unique (callHook_app_resolve resolved)
  ∧ (∀ k v, ResolveApp.app_layouts resolved !! k = Some v →
       k ≠ EmptyString
       ∧ ∃ c f, c ∈ layerConfigs ∧ f ∈ layoutFiles c ∧ layoutName c f = k
                ∧ (v = ResolveApp.Layout (ResolveApp.mkLayout k f)
                   ∨ (k ∈ ResolveApp.object_prototype_keys ∧ v = ResolveApp.Inherited k)))
  ∧ ResolveApp.app_layouts resolved !! EmptyString = None
  ∧ middleware.1
    = map (λ f, ResolveApp.mkMiddleware (getNameFromPath f None) f (hasSuffix f ".global"))
        (filter (λ f, Js.truthy (getNameFromPath f None) = true) middlewareFiles)
  ∧ Forall (λ m, ResolveApp.mw_name m ≠ EmptyString) (ResolveApp.app_middleware resolved)
  ∧ ResolveApp.app_layouts out.1 = ResolveApp.app_layouts (callHook_app_resolve resolved)
  ∧ (∀ m, m ∈ ResolveApp.app_middleware out.1 →
       ∃ m', m' ∈ ResolveApp.app_middleware (callHook_app_resolve resolved)
             ∧ ResolveApp.mw_name m = ResolveApp.mw_name m').
Proof.
  intros Hunique layoutFiles middlewareFiles layoutName layouts middleware resolved out.
  destruct (resolve_layouts_files resolve relative getNameFromPath options
              layerConfigs layoutFiles (∅, []) layerConfigs) as [HL1 HL2]; [done|done|].
  assert (HM : middleware
    = (map (λ f, ResolveApp.mkMiddleware (getNameFromPath f None) f (hasSuffix f ".global"))
         (filter (λ f, Js.truthy (getNameFromPath f None) = true) middlewareFiles),
       map (ResolveApp.middleware_warning relative options)
         (filter (λ f, ¬ Js.truthy (getNameFromPath f None) = true) middlewareFiles))).
  { subst middleware. unfold ResolveApp.resolve_middleware, ResolveApp.reversedConfigs.
    rewrite resolve_middleware_files. reflexivity. }
  assert (HN : Forall (λ m, ResolveApp.mw_name m ≠ EmptyString) middleware.1).
  { rewrite HM. simpl. apply Forall_forall. intros m [f [-> Hf]]%list_elem_of_fmap.
    apply list_elem_of_filter in Hf as [Hf _]. simpl. intros E. by rewrite E in Hf. }
  assert (Hname : ∀ m, ResolveApp.mw_name (ResolveApp.resolve_mw_path resolvePath m)
                       = ResolveApp.mw_name m).
  { intros m. unfold ResolveApp.resolve_mw_path. by destruct (Js.truthy _). }
  assert (Hout : out = (ResolveApp.dedupe_second resolvePath unique
                          (callHook_app_resolve resolved), layouts.2 ++ middleware.2)).
  { subst out resolved. unfold ResolveApp.resolveApp. fold layouts middleware.
    by destruct layouts, middleware. }
  split; [rewrite Hout; apply (f_equal2 app); [exact HL2|by rewrite HM]|].
  split; [by rewrite Hout|].
  split; [exact HL1|]. split.
  { destruct (ResolveApp.app_layouts resolved !! EmptyString) as [l|] eqn:E; [|done].
    apply HL1 in E as (E & _). done. }
  split; [by rewrite HM|]. split.
  { subst resolved. simpl. apply Forall_forall. intros m Hm.
    rewrite elem_of_reverse in Hm. apply Hunique in Hm.
    apply list_elem_of_fmap in Hm as [m0 [-> Hm0]]. rewrite elem_of_reverse in Hm0.
    rewrite Hname. exact (proj1 (Forall_forall _ _) HN m0 Hm0). }
  split; [by rewrite Hout|].
  rewrite Hout. simpl. intros m Hm. apply Hunique in Hm.
  apply list_elem_of_fmap in Hm as [m0 [-> Hm0]]. exists m0. by rewrite Hname.
Qed.

Lemma resolveApp_drops_unnamed_witness :
  (ResolveApp.resolveApp project_files project_plugin (λ p, p) resolve_plain relative_plain
     project_name (λ _ _, false) (λ app, app) (@ResolveApp.uniqueBy) options_app
     [options_app]).2
  = [Warn "No layout name could be resolved for `~/layouts/index.vue`. Bear in mind that `index` is ignored for the purpose of creating a layout name." None;
     Warn "No middleware name could be resolved for `~/middleware/index.ts`. Bear in mind that `index` is ignored for the purpose of creating a middleware name." None].
Proof.
  rewrite (proj1 (resolveApp_drops_unnamed project_files project_plugin (λ p, p)
                    resolve_plain relative_plain project_name (λ _ _, false) (λ app, app)
                    (@ResolveApp.uniqueBy) options_app [options_app]
                    (λ A key l x, uniqueBy_seen_elem key [] l x))).
  vm_compute. reflexivity.
Defined.

(** ** resolveApp: which entry of a key is kept *)

Section EntryOf.
Context {A : Type} (key : A → string).

Lemma entry_of_None k (l : list A) : k ∉ map key l → entry_of key k l = None.
Proof.
  induction l as [|x l IH]; simpl; [done|]. intros Hk.
  destruct (String.eqb_spec (key x) k) as [E|E].
  - destruct Hk. rewrite E. apply list_elem_of_here.
  - apply IH. intros H. apply Hk. by apply list_elem_of_further.
Qed.

Lemma entry_of_app k (l1 l2 : list A) :
  entry_of key k (l1 ++ l2)
  = match entry_of key k l1 with Some x => Some x | None => entry_of key k l2 end.
Proof.
  induction l1 as [|x l1 IH]; simpl; [done|]. by destruct (String.eqb (key x) k).
Qed.

(** Where no key occurs twice, the order of the entries does not matter. *)
Lemma entry_of_reverse k (l : list A) :
  NoDup (map key l) → entry_of key k (reverse l) = entry_of key k l.
Proof.
  induction l as [|x l IH]; [done|]. simpl. intros [Hx Hnd]%NoDup_cons.
  rewrite reverse_cons, entry_of_app, (IH Hnd). simpl.
  destruct (String.eqb_spec (key x) k) as [E|E].
  - rewrite entry_of_None; [done|]. by rewrite <- E.
  - by destruct (entry_of key k l).
Qed.

Lemma uniqueBy_seen_keys seen (l : list A) :
  NoDup (map key (ResolveApp.uniqueBy_seen key seen l))
  ∧ ∀ k, k ∈ map key (ResolveApp.uniqueBy_seen key seen l) → k ∉ seen.
Proof.
  revert seen. induction l as [|x l IH]; intros seen; simpl.
  - split; [constructor|]. intros k Hk. by apply elem_of_nil in Hk.
  - unfold Js.includes. case_bool_decide as Hs; [apply IH|].
    destruct (IH (key x :: seen)) as [Hnd Hout]. simpl. split.
    + constructor; [|done]. intros Hx. apply Hout in Hx. apply Hx, list_elem_of_here.
    + intros k [->|Hk]%elem_of_cons; [done|].
      apply Hout in Hk. intros Hk'. apply Hk. by apply list_elem_of_further.
Qed.

(** The helper keeps, for every key it has not seen, the first entry. *)
Lemma entry_of_uniqueBy_seen k seen (l : list A) :
  entry_of key k (ResolveApp.uniqueBy_seen key seen l)
  = if Js.includes seen k then None else entry_of key k l.
Proof.
  revert seen. induction l as [|x l IH]; intros seen; simpl.
  - by destruct (Js.includes seen k).
  - unfold Js.includes in *. case_bool_decide as Hx.
    + rewrite IH. case_bool_decide as Hk; [done|].
      destruct (String.eqb_spec (key x) k) as [E|E]; [|done]. by rewrite E in Hx.
    + simpl. destruct (String.eqb_spec (key x) k) as [E|E].
      * rewrite bool_decide_eq_false_2; [done|]. by rewrite <- E.
      * rewrite IH. case_bool_decide as H1; case_bool_decide as H2; try done.
        -- apply elem_of_cons in H1 as [H1|H1]; [by symmetry in H1|done].
        -- destruct H1. by apply list_elem_of_further.
Qed.

Lemma entry_of_uniqueBy k (l : list A) :
  entry_of key k (ResolveApp.uniqueBy key l) = entry_of key k l.
Proof. unfold ResolveApp.uniqueBy. by rewrite entry_of_uniqueBy_seen. Qed.

Lemma uniqueBy_NoDup (l : list A) : NoDup (map key (ResolveApp.uniqueBy key l)).
Proof. apply uniqueBy_seen_keys. Qed.
End EntryOf.

Lemma map_reverse {A B : Type} (f : A → B) (l : list A) :
  map f (reverse l) = reverse (map f l).
Proof. exact (fmap_reverse f l). Qed.

(** In the example the last-resolved entries are [plugin_all] and
    [middleware_user].  With the helper keeping the first entry of a key,
    the plugin kept is the first one, at both de-duplications, and so is
    the middleware kept by the second de-duplication; were the helper to
    keep the last entry instead, the reversals of line 177 would make the
    first middleware the one kept.  Either way the statement of the
    specification fails for one of the two collections. *)
Lemma dedupe_last_entry_not_always_kept :
  ResolveApp.app_plugins (ResolveApp.dedupe_first id (@ResolveApp.uniqueBy) app_with_duplicates)
    = [plugin_client]
  ∧ ResolveApp.app_plugins (ResolveApp.dedupe_second id (@ResolveApp.uniqueBy) app_with_duplicates)
    = [plugin_client]
  ∧ ResolveApp.app_middleware
      (ResolveApp.dedupe_second id (@ResolveApp.uniqueBy) app_with_duplicates)
    = [middleware_layer]
  ∧ ResolveApp.app_middleware
      (ResolveApp.dedupe_first id (@ResolveApp.uniqueBy_last) app_with_duplicates)
    = [middleware_layer]
  ∧ plugin_client ≠ plugin_all
  ∧ middleware_layer ≠ middleware_user.
Proof. vm_compute. repeat split; discriminate. Qed.

Lemma uniqueBy_last_NoDup {A : Type} (key : A → string) (l : list A) :
  NoDup (map key (ResolveApp.uniqueBy_last key l)).
Proof.
  unfold ResolveApp.uniqueBy_last.
  rewrite map_reverse, reverse_Permutation. apply uniqueBy_NoDup.
Qed.

Lemma entry_of_uniqueBy_last {A : Type} (key : A → string) k (l : list A) :
  entry_of key k (ResolveApp.uniqueBy_last key l) = entry_of key k (reverse l).
Proof.
  unfold ResolveApp.uniqueBy_last.
  rewrite entry_of_reverse by apply uniqueBy_NoDup. apply entry_of_uniqueBy.
Qed.

(** C6 (amended). Both de-duplications leave at most one plugin for a
    resolved source path and at most one middleware for a name.  At lines
    177 and 178 the middleware kept for a name is the last one with that
    name, and the plugin kept for a source path is the first one with that
    path; at lines 193 and 194, after the hook, it is the first one for
    both.  (Were the helper to keep the last entry of a key, the ends would
    be exchanged: line 177 would keep the first middleware, the three
    other statements the last entry.) *)
Theorem resolveApp_dedupe_kept_entry
  (resolvePath : string → string) (app : ResolveApp.NuxtApp) (k : string) :
  let middleware := map (ResolveApp.resolve_mw_path resolvePath) (ResolveApp.app_middleware app) in
  let plugins := map (ResolveApp.resolve_plugin_src resolvePath) (ResolveApp.app_plugins app) in
  let first := ResolveApp.dedupe_first resolvePath (@ResolveApp.uniqueBy) app in
  let second := ResolveApp.dedupe_second resolvePath (@ResolveApp.uniqueBy) app in
  let first' := ResolveApp.dedupe_first resolvePath (@ResolveApp.uniqueBy_last) app in
  let second' := ResolveApp.dedupe_second resolvePath (@ResolveApp.uniqueBy_last) app in
  (NoDup (map ResolveApp.mw_name (ResolveApp.app_middleware first))
   ∧ NoDup (map src (ResolveApp.app_plugins first))
   ∧ NoDup (map ResolveApp.mw_name (ResolveApp.app_middleware second))
   ∧ NoDup (map src (ResolveApp.app_plugins second)))
  ∧ (entry_of ResolveApp.mw_name k (ResolveApp.app_middleware first)
     = entry_of ResolveApp.mw_name k (reverse middleware)
     ∧ entry_of src k (ResolveApp.app_plugins first) = entry_of src k plugins
     ∧ entry_of ResolveApp.mw_name k (ResolveApp.app_middleware second)
       = entry_of ResolveApp.mw_name k middleware
     ∧ entry_of src k (ResolveApp.app_plugins second) = entry_of src k plugins)
  ∧ (entry_of ResolveApp.mw_name k (ResolveApp.app_middleware first')
     = entry_of ResolveApp.mw_name k middleware
     ∧ entry_of src k (ResolveApp.app_plugins first') = entry_of src k (reverse plugins)
     ∧ entry_of ResolveApp.mw_name k (ResolveApp.app_middleware second')
       = entry_of ResolveApp.mw_name k (reverse middleware)
     ∧ entry_of src k (ResolveApp.app_plugins second') = entry_of src k (reverse plugins)).
Proof.
  intros middleware plugins first second first' second'.
  subst first second first' second'. simpl.
  split; [|split].
  - repeat split; try apply uniqueBy_NoDup.
    rewrite map_reverse, reverse_Permutation. apply uniqueBy_NoDup.
  - repeat split; try apply entry_of_uniqueBy.
    rewrite entry_of_reverse by apply uniqueBy_NoDup.
    rewrite entry_of_uniqueBy. subst middleware. by rewrite map_reverse.
  - repeat split; try apply entry_of_uniqueBy_last.
    rewrite entry_of_reverse by apply uniqueBy_last_NoDup.
    rewrite entry_of_uniqueBy_last. subst middleware.
    by rewrite map_reverse, reverse_involutive.
Qed.

(** ** The prerenderable routes *)

Example ufo_joinURL_examples :
  ufo_joinURL "/" "/" = "/" ∧ ufo_joinURL "/" "/blog" = "/blog"
  ∧ ufo_joinURL "/blog" "comments" = "/blog/comments".
Proof. vm_compute. repeat split; reflexivity. Qed.

Example OPTIONAL_PARAM_RE_examples :
  Pages.OPTIONAL_PARAM_RE ":slug?" = true
  ∧ Pages.OPTIONAL_PARAM_RE "/:slug?" = true
  ∧ Pages.OPTIONAL_PARAM_RE ":slug(.*)*" = true
  ∧ Pages.OPTIONAL_PARAM_RE ":slug" = false
  ∧ Pages.OPTIONAL_PARAM_RE "/blog/:slug?" = false
  ∧ Pages.OPTIONAL_PARAM_RE "/" = false.
Proof. vm_compute. repeat split; reflexivity. Qed.

(** For the page tree of the specification the set is not the one it
    gives: [/blog] is not in it.  The pattern asks for the parameter right
    at the start of the path, and the path [/blog/:slug?] of a flat page
    starts with a static segment. *)
Lemma flat_pages_blog_not_prerendered :
  Pages.prerenderRoutes ufo_joinURL pages_flat = ["/"]
  ∧ ("/blog" ∉ Pages.prerenderRoutes ufo_joinURL pages_flat)
  ∧ Pages.OPTIONAL_PARAM_RE "/blog/:slug?" = false.
Proof.
  vm_compute. split; [reflexivity|]. split; [|reflexivity].
  intros H. apply list_elem_of_singleton in H. discriminate H.
Qed.

(** The set of the specification is the one of the nested tree, where the
    optional parameter is a child of the page [/blog]. *)
Lemma prerenderRoutes_nested :
  Pages.prerenderRoutes ufo_joinURL pages_nested = ["/"; "/blog"].
Proof. vm_compute. reflexivity. Qed.

(** C5 (amended). For the page tree of the specification the set of
    prerenderable routes is the root alone: the page [/blog/:slug?] is
    skipped as dynamic, so [/blog/:slug] is not in the set, and it does
    not add [/blog] either. *)
Theorem prerenderRoutes_of_flat_pages (joinURL : string → string → string) :
  joinURL "/" "/" = "/" →
  Pages.prerenderRoutes joinURL pages_flat = ["/"]
  ∧ ("/blog/:slug" ∉ Pages.prerenderRoutes joinURL pages_flat)
  ∧ ("/blog" ∉ Pages.prerenderRoutes joinURL pages_flat).
Proof.
  intros H.
  assert (E : Pages.prerenderRoutes joinURL pages_flat = ["/"]).
  { unfold Pages.prerenderRoutes, Pages.processPages, pages_flat. simpl.
    rewrite H. reflexivity. }
  rewrite E. split; [done|].
  split; intros Hin; apply list_elem_of_singleton in Hin; discriminate Hin.
Qed.

Lemma prerenderRoutes_of_flat_pages_witness :
  ufo_joinURL "/" "/" = "/" ∧ Pages.prerenderRoutes ufo_joinURL pages_flat = ["/"].
Proof.
  split; [reflexivity|]. apply (prerenderRoutes_of_flat_pages ufo_joinURL). reflexivity.
Defined.

(** ** isPagesEnabled *)

(** C10. With a boolean [pages] option, isPagesEnabled returns that boolean
    and consults nothing: neither the router options files, nor the pages
    directories, nor the resolved pages, nor the hook. *)
Theorem isPagesEnabled_user_preference
  (routerOptionsFiles : list (string * bool)) (isNonEmptyDir : string → bool)
  (pagesDirs : list string) (resolvePagesRoutes : list Pages.NuxtPage)
  (callHook_pages_extend : list Pages.NuxtPage → list Pages.NuxtPage) (b : bool) :
  Pages.isPagesEnabled routerOptionsFiles isNonEmptyDir pagesDirs resolvePagesRoutes
    callHook_pages_extend (Some b) = (b, []).
Proof. reflexivity. Qed.

(** ** The watch handlers *)

Example RESTART_RE_examples :
  Watch.RESTART_RE "app.vue" = true ∧ Watch.RESTART_RE "error.vue" = true
  ∧ Watch.RESTART_RE "app.config.ts" = true ∧ Watch.RESTART_RE "App.Vue" = true
  ∧ Watch.RESTART_RE "app.css" = false ∧ Watch.RESTART_RE "pages/app.vue" = false
  ∧ Watch.RESTART_RE "/app/app.vue" = false.
Proof. vm_compute. repeat split; reflexivity. Qed.

(** The pattern is anchored at the start of the string and every string it
    accepts starts with the name of the file, so no absolute path is
    accepted. *)
Lemma RESTART_RE_absolute (p : string) : is_absolute p = true → Watch.RESTART_RE p = false.
Proof.
  intros Habs. unfold Watch.RESTART_RE, Js.includes. apply bool_decide_eq_false_2.
  let names := eval vm_compute in Watch.RESTART_names in
  change Watch.RESTART_names with names.
  rewrite !elem_of_cons, elem_of_nil.
  destruct p as [|c1 rest]; [discriminate Habs|]. simpl in Habs.
  apply orb_true_iff in Habs as [Hc1|Hrest].
  - apply Ascii.eqb_eq in Hc1 as ->. simpl. intros H.
    repeat (destruct H as [H|H]; [discriminate H|]). exact H.
  - destruct rest as [|c2 [|c3 rest]]; try discriminate Hrest.
    apply andb_true_iff in Hrest as [Hc2 _]. apply Ascii.eqb_eq in Hc2 as ->.
    simpl. intros H.
    repeat (destruct H as [H|H]; [discriminate H|]). exact H.
Qed.

(** On a path that [resolve] has made absolute the test of the core files
    never succeeds: the handler restarts for a watched module file or a
    pattern of the [watch] option, and for nothing else. *)
Lemma core_watch_absolute
  (resolve relative : string → string → string) (options : ResolveApp.Config)
  (layers : list Watch.Layer) (watchedPaths : list string) (watch : list Watch.WatchPattern)
  (event : Watch.WatchEvent) (relativePath : string) :
  (∀ a b, is_absolute (resolve a b) = true) →
  let path := resolve (ResolveApp.srcDir options) relativePath in
  Watch.core_watch resolve relative options layers watchedPaths watch event relativePath
  = (if Js.includes watchedPaths path then Watch.Restart true
     else if Watch.user_pattern_matches path
               (map (λ l, relative (Watch.layer_dir l) path) layers) watch
          then Watch.Restart false
          else Watch.NoAction, []).
Proof.
  intros Habs path. unfold Watch.core_watch. fold path.
  destruct (Js.includes watchedPaths path); [done|].
  destruct (Watch.user_pattern_matches _ _ _); [done|].
  unfold path. rewrite RESTART_RE_absolute by apply Habs. by rewrite andb_false_r.
Qed.

(** C7. The file names app.vue, error.vue and app.config.ts are accepted by
    the pattern of the core files, but the handler tests the pattern on the
    absolute path: when such a file of the project at /app is added or
    removed, the handler does nothing. *)
Theorem core_watch_entry_file_ignored :
  let handler := Watch.core_watch resolve_plain relative_plain options_app [layer_app]
                   watched_modules [] in
  Watch.RESTART_RE "app.vue" = true
  ∧ Watch.RESTART_RE "error.vue" = true
  ∧ Watch.RESTART_RE "app.config.ts" = true
  ∧ resolve_plain (ResolveApp.srcDir options_app) "app.vue" = "/app/app.vue"
  ∧ handler Watch.add "app.vue" = (Watch.NoAction, [])
  ∧ handler Watch.unlink "app.vue" = (Watch.NoAction, [])
  ∧ handler Watch.add "error.vue" = (Watch.NoAction, [])
  ∧ handler Watch.unlink "error.vue" = (Watch.NoAction, [])
  ∧ handler Watch.add "app.config.ts" = (Watch.NoAction, [])
  ∧ handler Watch.unlink "app.config.ts" = (Watch.NoAction, []).
Proof. vm_compute. repeat split; reflexivity. Qed.

(** A change of a file of the plugins directory: no handler restarts, and
    none does anything else. *)
Lemma watch_change_in_plugins_no_restart :
  let path := resolve_plain (ResolveApp.srcDir options_app) "plugins/analytics.ts" in
  Js.startsWith "/app/plugins/" path = true
  ∧ Watch.core_watch resolve_plain relative_plain options_app [layer_app]
      watched_modules [] Watch.change "plugins/analytics.ts" = (Watch.NoAction, [])
  ∧ Watch.pages_restart_watch resolve_plain resolve_plain options_app [layer_app]
      true true "plugins/analytics.ts" = (Watch.NoAction, [])
  ∧ Watch.pages_watch resolve_plain resolve_plain options_app [layer_app]
      true pages_app Watch.change "plugins/analytics.ts" = Watch.NoAction.
Proof. vm_compute. repeat split; reflexivity. Qed.

Lemma pages_watch_never_restarts
  (resolve join : string → string → string) (options : ResolveApp.Config)
  (layers : list Watch.Layer) (scanPageMeta : bool) (pages : option (list Pages.NuxtPage))
  (event : Watch.WatchEvent) (relativePath : string) (hard : bool) :
  Watch.pages_watch resolve join options layers scanPageMeta pages event relativePath
  ≠ Watch.Restart hard.
Proof.
  unfold Watch.pages_watch.
  destruct (Watch.event_eqb event Watch.change && _); [done|].
  by destruct (_ || _).
Qed.

(** C8 (amended). On a change event the handler of initNuxt restarts, hard,
    when the path is one of the scanned local module files, restarts when
    the path matches an entry of the [watch] option, and does nothing
    otherwise; a path below the plugins directory is no case of its own.
    On a change event the handler of the pages module regenerates the
    templates, filtered to the one named routes.mjs, when scanPageMeta is
    enabled and the path is the file of a page, and does nothing otherwise;
    it never restarts. *)
Theorem watch_change_classification
  (resolve relative join : string → string → string) (options : ResolveApp.Config)
  (layers : list Watch.Layer) (watchedPaths : list string) (watch : list Watch.WatchPattern)
  (scanPageMeta : bool) (pages : option (list Pages.NuxtPage)) (relativePath : string) :
  let path := resolve (ResolveApp.srcDir options) relativePath in
  Watch.core_watch resolve relative options layers watchedPaths watch Watch.change relativePath
  = (if Js.includes watchedPaths path then Watch.Restart true
     else if Watch.user_pattern_matches path
               (map (λ l, relative (Watch.layer_dir l) path) layers) watch
          then Watch.Restart false
          else Watch.NoAction, [])
  ∧ Watch.pages_watch resolve join options layers scanPageMeta pages Watch.change relativePath
    = (if scanPageMeta && Pages.isPage path pages
       then Watch.UpdateTemplates Watch.routes_only else Watch.NoAction)
  ∧ (∀ filename, Watch.routes_only filename = true ↔ filename = "routes.mjs")
  ∧ (∀ event hard,
       Watch.pages_watch resolve join options layers scanPageMeta pages event relativePath
       ≠ Watch.Restart hard).
Proof.
  intros path. split; [|split; [|split]].
  - unfold Watch.core_watch. fold path.
    destruct (Js.includes watchedPaths path); [done|].
    by destruct (Watch.user_pattern_matches _ _ _).
  - unfold Watch.pages_watch. fold path.
    by destruct (scanPageMeta && Pages.isPage path pages).
  - intros filename. unfold Watch.routes_only. apply String.eqb_eq.
  - intros event hard. apply pages_watch_never_restarts.
Qed.

(** The page of the example project changes while scanPageMeta is on. *)
Example watch_change_of_page :
  Watch.pages_watch resolve_plain resolve_plain options_app [layer_app]
    true pages_app Watch.change "pages/index.vue" = Watch.UpdateTemplates Watch.routes_only
  ∧ Watch.core_watch resolve_plain relative_plain options_app [layer_app]
      watched_modules [] Watch.change "pages/index.vue" = (Watch.NoAction, [])
  ∧ Watch.core_watch resolve_plain relative_plain options_app [layer_app]
      watched_modules [] Watch.change "modules/hello.ts" = (Watch.Restart true, []).
Proof. vm_compute. repeat split; reflexivity. Qed.

(* ================================================================== *)
(** * Further properties of the code *)
(* ================================================================== *)

(** ** annotatePlugins: the loop and the order of registration *)

Lemma sort_sorted_id {A : Type} (key : A → Js.JsNumber) (l : list A) :
  StronglySorted (λ a b, Js.number_le (key a) (key b)) l →
  Js.sortBy (λ a b, Js.sub (key a) (key b)) l = l.
Proof.
  unfold Js.sortBy. induction 1 as [|x l Hs IH Hall]; [done|].
  change (Js.sort ?c (x :: l)) with (Js.sort_insert c x (Js.sort c l)).
  rewrite IH. destruct l as [|y l']; [done|]. simpl.
  apply Forall_cons in Hall as [Hxy _].
  destruct (key x), (key y); simpl in *; try done.
  destruct (Z.leb_spec (z - z0) 0); [done|lia].
Qed.

(** X1. When the annotated plugins are already in the order of their keys,
    as they are when no plugin has an order, annotatePlugins returns them
    in the order in which they were registered. *)
Theorem annotatePlugins_registration_order
  (vfs : gmap string string) (readFile : string → string + string)
  (extractMetadata : string → PluginMeta + string) (orderMap_default : Z)
  (relative : string → string → string) (rootDir : string)
  (plugins : list NuxtPlugin) :
  StronglySorted (λ a b, Js.number_le (Plugins.orderKey orderMap_default a)
                                      (Plugins.orderKey orderMap_default b))
    (Plugins.collect vfs readFile extractMetadata relative rootDir plugins).1 →
  (Plugins.annotatePlugins vfs readFile extractMetadata orderMap_default
     relative rootDir plugins).1
  = (Plugins.collect vfs readFile extractMetadata relative rootDir plugins).1.
Proof.
  intros Hs. unfold Plugins.annotatePlugins.
  destruct (Plugins.collect _ _ _ _ _ plugins) as [ps log]. simpl in *.
  by apply (sort_sorted_id (Plugins.orderKey orderMap_default)).
Qed.

Lemma annotatePlugins_registration_order_witness :
  (Plugins.annotatePlugins ∅ no_file no_metadata 0 relative_plain "/app"
     [plugin_a "/app/plugins/a.ts"; plugin_b "/app/plugins/b.ts"]).1
  = [plugin_a "/app/plugins/a.ts"; plugin_b "/app/plugins/b.ts"].
Proof.
  rewrite (annotatePlugins_registration_order ∅ no_file no_metadata 0 relative_plain "/app"
             [plugin_a "/app/plugins/a.ts"; plugin_b "/app/plugins/b.ts"]).
  - vm_compute. reflexivity.
  - vm_compute. repeat constructor; intros H; discriminate H.
Defined.

(** X2. The loop of annotatePlugins keeps every plugin, in order: a plugin
    whose code cannot be read or whose metadata cannot be extracted is kept
    as it was given and gets one warning, the others are merged with their
    metadata and get none.  The output has as many plugins as the input. *)
Theorem annotatePlugins_fallback
  (vfs : gmap string string) (readFile : string → string + string)
  (extractMetadata : string → PluginMeta + string) (orderMap_default : Z)
  (relative : string → string → string) (rootDir : string)
  (plugins : list NuxtPlugin) :
  let try := Plugins.try_annotate vfs readFile extractMetadata in
  let out := Plugins.annotatePlugins vfs readFile extractMetadata orderMap_default
               relative rootDir plugins in
  (Plugins.collect vfs readFile extractMetadata relative rootDir plugins).1
  = map (annotated try) plugins
  ∧ out.2 = omap (λ p, match try p with
                       | inl _ => None
                       | inr e => Some (Plugins.catch_warning relative rootDir p e)
                       end) plugins
  ∧ length out.1 = length plugins
  ∧ (∀ p e, p ∈ plugins → try p = inr e → p ∈ out.1).
Proof.
  intros try out.
  assert (H : Plugins.collect vfs readFile extractMetadata relative rootDir plugins
    = (map (annotated try) plugins,
       omap (λ p, match try p with
                  | inl _ => None
                  | inr e => Some (Plugins.catch_warning relative rootDir p e)
                  end) plugins)).
  { induction plugins as [|p ps IH]; [done|]. simpl. rewrite IH.
    unfold annotated. fold try. by destruct (try p). }
  subst out. unfold Plugins.annotatePlugins. rewrite H. simpl.
  split; [done|]. split; [done|].
  pose proof (sortBy_perm (Plugins.compareOrder orderMap_default)
                (map (annotated try) plugins)) as Hp.
  split.
  - by rewrite Hp, length_map.
  - intros p e Hin He.
    rewrite Hp. apply list_elem_of_fmap. exists p. split; [|done].
    unfold annotated. by rewrite He.
Qed.

(** ** checkForCircularDependencies: what is reported and what is not *)

Lemma flatMap_nil f l r log :
  (∀ x r log, x ∈ l → f x = Some (r, log) → r = [] ∧ log = []) →
  Plugins.flatMap f l = Some (r, log) → r = [] ∧ log = [].
Proof.
  revert r log. induction l as [|x l IH]; intros r log Hf; simpl.
  - by intros [= <- <-].
  - destruct (f x) as [[r1 log1]|] eqn:Hx; [|done].
    destruct (Plugins.flatMap f l) as [[r2 log2]|] eqn:Hl; [|done].
    intros [= <- <-].
    destruct (Hf x r1 log1) as [-> ->]; [apply list_elem_of_here|done|].
    destruct (IH r2 log2) as [-> ->]; [|done|done].
    intros y ry logy Hy. apply Hf. by apply list_elem_of_further.
Qed.

(** Below a name whose ancestors all rank higher, nothing is reported. *)
Lemma checkDeps_acyclic (rank : string → nat) deps :
  (∀ a b, edge deps a b → (rank b < rank a)%nat) →
  ∀ fuel n visited r log,
    (∀ v, v ∈ visited → (rank n < rank v)%nat) →
    Plugins.checkDeps fuel deps n visited = Some (r, log) → r = [] ∧ log = [].
Proof.
  intros Hrank. induction fuel as [|fuel IH]; intros n visited r log Hv; [done|].
  rewrite checkDeps_S. unfold Js.includes. case_bool_decide as Hin.
  { apply Hv in Hin. lia. }
  destruct (Plugins.get n deps) as [[|dep ds]|] eqn:Hget;
    [by intros [= <- <-]| |by intros [= <- <-]].
  apply flatMap_nil. intros x rx logx Hx. apply IH.
  intros v [Hv'| ->%list_elem_of_singleton]%elem_of_app.
  - assert (rank x < rank n)%nat by (apply Hrank; by exists (dep :: ds)).
    apply Hv in Hv'. lia.
  - apply Hrank. by exists (dep :: ds).
Qed.

Lemma check_all_acyclic (rank : string → nat) deps fuel names log :
  (∀ a b, edge deps a b → (rank b < rank a)%nat) →
  Plugins.check_all fuel deps names = Some log → log = [].
Proof.
  intros Hrank. revert log. induction names as [|n names IH]; intros log; simpl.
  - by intros [= <-].
  - destruct (Plugins.checkDeps fuel deps n []) as [[r logn]|] eqn:Hn; [|done].
    destruct (Plugins.check_all fuel deps names) as [log'|]; [|done].
    intros [= <-]. rewrite (IH log' eq_refl).
    eapply checkDeps_acyclic in Hn as [_ ->]; [done|exact Hrank|].
    intros v Hv. by apply elem_of_nil in Hv.
Qed.

(** X3. No false alarm: when the names can be ranked so that every plugin
    ranks above its dependencies (the graph has no cycle), the check logs
    no cycle; what it logs are the missing dependencies, plugin by
    plugin. *)
Theorem checkForCircularDependencies_acyclic (rank : string → nat) (_plugins : list NuxtPlugin) :
  (∀ a b, edge (Plugins.build_deps _plugins) a b → (rank b < rank a)%nat) →
  Plugins.checkForCircularDependencies _plugins
  = Some (concat (map (Plugins.missing_error (map name _plugins)) _plugins)).
Proof.
  intros Hrank.
  unfold Plugins.checkForCircularDependencies, Plugins.checkForCircularDependencies_fuel.
  destruct (check_all_is_Some (S (length (Plugins.build_deps _plugins)))
              (Plugins.build_deps _plugins)
              (Plugins.for_in_keys (Plugins.build_deps _plugins))) as [log Hlog]; [lia|].
  rewrite Hlog. apply (check_all_acyclic rank) in Hlog; [|done].
  by rewrite Hlog, app_nil_r.
Qed.

Lemma checkForCircularDependencies_acyclic_witness :
  Plugins.checkForCircularDependencies [plugin_a "a.ts"; plugin_leaf "b.ts"] = Some [].
Proof.
  apply (checkForCircularDependencies_acyclic rank_ab [plugin_a "a.ts"; plugin_leaf "b.ts"]).
  intros a b [l [Hget Hb]].
  change (Plugins.build_deps [plugin_a "a.ts"; plugin_leaf "b.ts"])
    with [("a", ["b"]); ("b", @nil string)] in Hget.
  cbn [Plugins.get] in Hget.
  destruct (String.eqb_spec "a" a) as [<-|_].
  - injection Hget as <-. apply list_elem_of_singleton in Hb as ->. vm_compute. lia.
  - destruct (String.eqb_spec "b" a) as [<-|_]; [|discriminate Hget].
    injection Hget as <-. by apply elem_of_nil in Hb.
Defined.

(** X4. The diagnostics of missing dependencies are empty exactly when
    every declared dependency is the name of a registered plugin; a plugin
    that declares such a dependency is the only source of a diagnostic. *)
Theorem missing_dependencies_reported (_plugins : list NuxtPlugin) :
  concat (map (Plugins.missing_error (map name _plugins)) _plugins) = []
  ↔ ∀ p l d, p ∈ _plugins → dependsOn p = Some l → d ∈ l → Some d ∈ map name _plugins.
Proof.
  generalize (map name _plugins) as names. intros names.
  induction _plugins as [|p ps IH]; simpl.
  - split; [|done]. intros _ p l d Hp. by apply elem_of_nil in Hp.
  - rewrite app_nil, IH. unfold Plugins.missing_error, Plugins.missing. split.
    + intros [Hp Hps] q l d [->|Hq]%elem_of_cons Hl Hd; [|by eapply Hps].
      rewrite Hl in Hp.
      destruct (filter _ l) as [|m ms] eqn:Hf; [|done].
      destruct (decide (Some d ∈ names)) as [|Hn]; [done|].
      assert (d ∈ filter (λ n, Some n ∉ names) l) as Hin
        by (apply list_elem_of_filter; done).
      rewrite Hf in Hin. by apply elem_of_nil in Hin.
    + intros H. split.
      * destruct (dependsOn p) as [l|] eqn:Hl; [|done].
        destruct (filter _ l) as [|m ms] eqn:Hf; [done|].
        assert (m ∈ filter (λ n, Some n ∉ names) l) as Hin
          by (rewrite Hf; apply list_elem_of_here).
        apply list_elem_of_filter in Hin as [Hm Hin].
        destruct Hm. eapply (H p); [apply list_elem_of_here|done|done].
      * intros q l d Hq. apply (H q). by apply list_elem_of_further.
Qed.

Lemma flatMap_log_elem f l r log x :
  Plugins.flatMap f l = Some (r, log) → x ∈ l →
  ∃ rx logx, f x = Some (rx, logx) ∧ ∀ e, e ∈ logx → e ∈ log.
Proof.
  revert r log. induction l as [|y l IH]; intros r log; simpl.
  - intros _ Hx. by apply elem_of_nil in Hx.
  - destruct (f y) as [[r1 log1]|] eqn:Hy; [|done].
    destruct (Plugins.flatMap f l) as [[r2 log2]|] eqn:Hl; [|done].
    intros [= <- <-] [->|Hx]%elem_of_cons.
    + exists r1, log1. split; [done|]. intros e He. apply elem_of_app. by left.
    + destruct (IH r2 log2 eq_refl Hx) as (rx & logx & Hfx & Hsub).
      exists rx, logx. split; [done|]. intros e He. apply elem_of_app. right. by apply Hsub.
Qed.

(** A walk that leads back to a name of the active path ends in a report. *)
Lemma checkDeps_reports_walk deps x y :
  rtc (edge deps) x y →
  ∀ fuel visited r log,
    y ∈ visited →
    Plugins.checkDeps fuel deps x visited = Some (r, log) →
    ∃ v m, Plugins.cycle_error v m ∈ log.
Proof.
  induction 1 as [x|x z y [l [Hget Hz]] _ IH]; intros [|fuel] visited r log Hy; try done.
  - rewrite checkDeps_S. unfold Js.includes. rewrite bool_decide_eq_true_2 by done.
    intros [= <- <-]. exists visited, x. apply list_elem_of_here.
  - rewrite checkDeps_S. unfold Js.includes. case_bool_decide as Hin.
    + intros [= <- <-]. exists visited, x. apply list_elem_of_here.
    + rewrite Hget. destruct l as [|dep ds]; [by apply elem_of_nil in Hz|].
      intros Hf. destruct (flatMap_log_elem _ _ _ _ z Hf Hz) as (rz & logz & Hcall & Hsub).
      destruct (IH fuel (visited ++ [x]) rz logz) as (v & m & Hvm); [|done|].
      * apply elem_of_app. by left.
      * exists v, m. by apply Hsub.
Qed.

Lemma check_all_log_elem fuel deps names log n :
  Plugins.check_all fuel deps names = Some log → n ∈ names →
  ∃ r logn, Plugins.checkDeps fuel deps n [] = Some (r, logn) ∧ ∀ e, e ∈ logn → e ∈ log.
Proof.
  revert log. induction names as [|m names IH]; intros log; simpl.
  - intros _ Hn. by apply elem_of_nil in Hn.
  - destruct (Plugins.checkDeps fuel deps m []) as [[r1 log1]|] eqn:Hm; [|done].
    destruct (Plugins.check_all fuel deps names) as [log2|]; [|done].
    intros [= <-] [->|Hn]%elem_of_cons.
    + exists r1, log1. split; [done|]. intros e He. apply elem_of_app. by left.
    + destruct (IH log2 eq_refl Hn) as (r & logn & Hc & Hsub).
      exists r, logn. split; [done|]. intros e He. apply elem_of_app. right. by apply Hsub.
Qed.

(** The last loop visits every key of the graph, once. *)
Lemma for_in_keys_perm (d : Plugins.Deps) : Plugins.for_in_keys d ≡ₚ map fst d.
Proof.
  unfold Plugins.for_in_keys.
  rewrite (sort_perm Plugins.index_value). apply filter_app_complement.
Qed.

(** X5. No cycle is missed: when the graph built from the plugins has a
    cycle through a name, the check returns with at least one cycle
    diagnostic in its log. *)
Theorem checkForCircularDependencies_reports_cycle (_plugins : list NuxtPlugin) (n : string) :
  tc (edge (Plugins.build_deps _plugins)) n n →
  ∃ log, Plugins.checkForCircularDependencies _plugins = Some log
         ∧ ∃ visited m, Plugins.cycle_error visited m ∈ log.
Proof.
  intros Hcycle.
  assert (∃ z, edge (Plugins.build_deps _plugins) n z
               ∧ rtc (edge (Plugins.build_deps _plugins)) z n) as (z & Hedge & Hwalk).
  { inversion Hcycle as [? ? He|? y ? He Ht]; subst.
    - exists n. split; [done|]. apply rtc_refl.
    - exists y. split; [done|]. by apply tc_rtc. }
  unfold Plugins.checkForCircularDependencies, Plugins.checkForCircularDependencies_fuel.
  set (deps := Plugins.build_deps _plugins) in *.
  destruct (check_all_is_Some (S (length deps)) deps (Plugins.for_in_keys deps))
    as [log Hlog]; [lia|].
  rewrite Hlog. eexists. split; [done|].
  destruct Hedge as [l [Hget Hz]].
  assert (n ∈ Plugins.for_in_keys deps) as Hn.
  { rewrite for_in_keys_perm. by eapply get_Some_key. }
  destruct (check_all_log_elem _ _ _ _ n Hlog Hn) as (r & logn & Hcall & Hsub).
  rewrite checkDeps_S in Hcall. unfold Js.includes in Hcall.
  rewrite bool_decide_eq_false_2 in Hcall by (intros H; by apply elem_of_nil in H).
  rewrite Hget in Hcall. destruct l as [|dep ds]; [by apply elem_of_nil in Hz|].
  destruct (flatMap_log_elem _ _ _ _ z Hcall Hz) as (rz & logz & Hzcall & Hzsub).
  destruct (checkDeps_reports_walk deps z n Hwalk _ _ _ _ (list_elem_of_here n []) Hzcall)
    as (v & m & Hvm).
  exists v, m. apply elem_of_app. right. by apply Hsub, Hzsub.
Qed.

Lemma checkForCircularDependencies_reports_cycle_witness :
  ∃ log, Plugins.checkForCircularDependencies [plugin_a "a.ts"; plugin_b "b.ts"] = Some log
         ∧ ∃ visited m, Plugins.cycle_error visited m ∈ log.
Proof.
  apply (checkForCircularDependencies_reports_cycle [plugin_a "a.ts"; plugin_b "b.ts"] "a").
  apply (tc_l _ "a" "b" "a").
  - exists ["b"]. split; [reflexivity|apply list_elem_of_here].
  - apply tc_once. exists ["a"]. split; [reflexivity|apply list_elem_of_here].
Defined.

(** ** The dependency graph *)

Lemma get_assign_eq k v d : Plugins.get k (Plugins.assign k v d) = Some v.
Proof.
  induction d as [|[k' v'] d IH]; simpl.
  - by rewrite String.eqb_refl.
  - destruct (String.eqb_spec k' k) as [->|Hne]; simpl.
    + by rewrite String.eqb_refl.
    + by destruct (String.eqb_spec k' k).
Qed.

Lemma get_assign_ne k k' v d : k ≠ k' → Plugins.get k' (Plugins.assign k v d) = Plugins.get k' d.
Proof.
  intros Hne. induction d as [|[k0 v0] d IH]; simpl.
  - by destruct (String.eqb_spec k k').
  - destruct (String.eqb_spec k0 k) as [->|Hk]; simpl.
    + by destruct (String.eqb_spec k k').
    + by rewrite IH.
Qed.

(** X6. The graph holds, for a name, the dependencies of the last plugin
    registered under that name (none declared counts as the empty list); a
    plugin without a name, or with the empty name, is no node of the
    graph. *)
Theorem build_deps_last_plugin (_plugins : list NuxtPlugin) (n : string) :
  Plugins.get n (Plugins.build_deps _plugins)
  = if Js.truthy n
    then (λ p, default [] (dependsOn p)) <$> last (filter (λ p, name p = Some n) _plugins)
    else None.
Proof.
  unfold Plugins.build_deps.
  induction _plugins as [|p ps IH] using rev_ind.
  - simpl. by destruct (Js.truthy n).
  - rewrite foldl_app. simpl. rewrite filter_app, filter_cons, filter_nil.
    revert IH. generalize (foldl (λ d p, Plugins.add_node p d) [] ps). intros d IH.
    unfold Plugins.add_node. destruct (name p) as [m|] eqn:Hm.
    + destruct (Js.truthy m) eqn:Ht.
      * destruct (decide (m = n)) as [->|Hne].
        -- rewrite get_assign_eq, Ht. rewrite decide_True by done.
           by rewrite last_snoc.
        -- rewrite get_assign_ne by done. rewrite IH.
           rewrite decide_False by congruence. by rewrite app_nil_r.
      * rewrite IH. destruct (Js.truthy n) eqn:Hn; [|done].
        rewrite decide_False; [by rewrite app_nil_r|]. intros [= ->]. congruence.
    + rewrite IH. rewrite decide_False by done. by rewrite app_nil_r.
Qed.

(** ** generateApp: what a pass writes and what it leaves alone *)

Section PassFacts.
Context {Ctx : Type}.
Variable resolve : string → string → string.
Variable buildDir : string.
Variable win32 : bool.
Variable ctx : Ctx.

Let settle := App.settle resolve buildDir win32 ctx.

Lemma settle_writes vfs0 st l :
  App.st_writes (foldl (settle vfs0) st l)
  = App.st_writes st ++ omap (queued_write resolve buildDir ctx vfs0) l.
Proof.
  revert st. induction l as [|t l IH]; intros st; simpl; [by rewrite app_nil_r|].
  rewrite IH. unfold settle, App.settle, queued_write.
  destruct (App.compileTemplate t ctx) as [c|e]; simpl; [|done].
  case_bool_decide; simpl.
  - by rewrite andb_false_r.
  - rewrite andb_true_r. destruct (App.write t); simpl; [|done]. by rewrite <- app_assoc.
Qed.

Lemma settle_changes vfs0 st l k :
  App.st_vfs (foldl (settle vfs0) st l) !! k = App.st_vfs st !! k
  ∨ ∃ t c, t ∈ l ∧ k ∈ App.stored_keys resolve buildDir win32 t
           ∧ App.compileTemplate t ctx = inl c
           ∧ App.modified resolve buildDir ctx vfs0 t = Some true
           ∧ App.st_vfs (foldl (settle vfs0) st l) !! k = Some c.
Proof.
  induction l as [|t l IH] using rev_ind; [by left|].
  rewrite foldl_app. simpl. unfold settle. rewrite !settle_lookup.
  unfold App.modified.
  destruct (App.compileTemplate t ctx) as [c|e] eqn:Hc.
  - case_bool_decide as Hold.
    + destruct IH as [IH|(t' & c' & Ht' & IH)]; [by left|]. right.
      exists t', c'. split; [apply elem_of_app; by left|done].
    + case_bool_decide as Hk.
      * right. exists t, c. rewrite Hc. rewrite bool_decide_eq_false_2 by done.
        split; [apply elem_of_app; right; apply list_elem_of_here|done].
      * destruct IH as [IH|(t' & c' & Ht' & IH)]; [by left|]. right.
        exists t', c'. split; [apply elem_of_app; by left|done].
  - destruct IH as [IH|(t' & c' & Ht' & IH)]; [by left|]. right.
    exists t', c'. split; [apply elem_of_app; by left|done].
Qed.

Lemma settle_failed_log vfs0 st l :
  App.st_log (foldl (settle vfs0) st l)
  = App.st_log st
    ++ map (λ t, LoggerError ("Could not compile template `" +:+ App.filename t +:+ "`."))
         (filter (λ t, compiles ctx t = false) l).
Proof.
  revert st. induction l as [|t l IH]; intros st; simpl; [by rewrite app_nil_r|].
  rewrite IH, filter_cons. destruct (App.compileTemplate t ctx) as [c|e] eqn:Hc.
  - rewrite decide_False by (unfold compiles; by rewrite Hc).
    unfold settle, App.settle. rewrite Hc. case_bool_decide; reflexivity.
  - rewrite decide_True by (unfold compiles; by rewrite Hc).
    unfold settle, App.settle. rewrite Hc. simpl. rewrite <- app_assoc. reflexivity.
Qed.

Lemma settle_skips_failed vfs0 st st' l :
  App.st_vfs st = App.st_vfs st' → App.st_writes st = App.st_writes st' →
  App.st_vfs (foldl (settle vfs0) st l)
  = App.st_vfs (foldl (settle vfs0) st' (filter (λ t, compiles ctx t = true) l))
  ∧ App.st_writes (foldl (settle vfs0) st l)
    = App.st_writes (foldl (settle vfs0) st' (filter (λ t, compiles ctx t = true) l)).
Proof.
  revert st st'. induction l as [|t l IH]; intros st st' Hv Hw; simpl; [done|].
  rewrite filter_cons. destruct (App.compileTemplate t ctx) as [c|e] eqn:Hc.
  - rewrite decide_True by (unfold compiles; by rewrite Hc). simpl.
    apply IH; unfold settle, App.settle; rewrite Hc; case_bool_decide; simpl;
      rewrite ?Hv, ?Hw; reflexivity.
  - rewrite decide_False by (unfold compiles; by rewrite Hc).
    apply IH; unfold settle, App.settle; rewrite Hc; simpl; assumption.
Qed.
End PassFacts.

(** X7. The writes that a pass queues are, in the order in which the
    compilations complete, those of the templates that compile, are marked
    modified and have the write flag: their destination with the compiled
    content.  A template without the write flag, an unmodified one or one
    that does not compile queues nothing. *)
Theorem generateApp_queued_writes {Ctx : Type}
  (resolve : string → string → string) (buildDir : string) (win32 : bool) (ctx : Ctx)
  (vfs0 : gmap string string) (settled : list (App.Template Ctx)) :
  let writes := App.st_writes (App.compile_pass resolve buildDir win32 ctx vfs0 settled) in
  writes = omap (queued_write resolve buildDir ctx vfs0) settled
  ∧ ∀ path content, (path, content) ∈ writes →
      ∃ t, t ∈ settled ∧ App.write t = true
           ∧ App.modified resolve buildDir ctx vfs0 t = Some true
           ∧ path = App.fullPath resolve buildDir t
           ∧ App.compileTemplate t ctx = inl content.
Proof.
  intros writes.
  assert (E : writes = omap (queued_write resolve buildDir ctx vfs0) settled).
  { subst writes. unfold App.compile_pass. by rewrite settle_writes. }
  split; [exact E|]. rewrite E. intros path content Hin.
  apply list_elem_of_omap in Hin as (t & Ht & Hq). exists t. split; [done|].
  unfold queued_write in Hq. unfold App.modified.
  destruct (App.compileTemplate t ctx) as [c|e]; [|done].
  destruct (App.write t); [|done]. simpl in Hq.
  case_bool_decide; [done|]. simpl in Hq. by injection Hq as <- <-.
Qed.

(** X8. A pass changes the vfs only under the keys of modified templates
    (destination, alias and, on Windows, the destination with backslashes),
    and what it leaves there is the compiled content of such a template;
    every other entry is as before, and no entry is removed. *)
Theorem generateApp_vfs_changes {Ctx : Type}
  (resolve : string → string → string) (buildDir : string) (win32 : bool) (ctx : Ctx)
  (vfs0 : gmap string string) (settled : list (App.Template Ctx)) (k : string) :
  let vfs := App.st_vfs (App.compile_pass resolve buildDir win32 ctx vfs0 settled) in
  (vfs !! k = vfs0 !! k
   ∨ ∃ t c, t ∈ settled ∧ k ∈ App.stored_keys resolve buildDir win32 t
            ∧ App.compileTemplate t ctx = inl c
            ∧ App.modified resolve buildDir ctx vfs0 t = Some true
            ∧ vfs !! k = Some c)
  ∧ (is_Some (vfs0 !! k) → is_Some (vfs !! k)).
Proof.
  intros vfs. subst vfs. unfold App.compile_pass.
  destruct (settle_changes resolve buildDir win32 ctx vfs0 (App.mkState vfs0 [] []) settled k)
    as [H|(t & c & Ht & Hk & Hc & Hm & H)].
  - split; [by left|]. simpl in H. by rewrite H.
  - split; [right; by exists t, c|]. intros _. rewrite H. by eexists.
Qed.

(** X9. A template that does not compile does not stop the others: the
    vfs and the queued writes of a pass are those of the pass without the
    failing templates, and each failing template is logged, in order. *)
Theorem generateApp_failures_isolated {Ctx : Type}
  (resolve : string → string → string) (buildDir : string) (win32 : bool) (ctx : Ctx)
  (vfs0 : gmap string string) (settled : list (App.Template Ctx)) :
  let pass := App.compile_pass resolve buildDir win32 ctx vfs0 in
  let compiled := filter (λ t, compiles ctx t = true) settled in
  App.st_vfs (pass settled) = App.st_vfs (pass compiled)
  ∧ App.st_writes (pass settled) = App.st_writes (pass compiled)
  ∧ App.st_log (pass settled)
    = map (λ t, LoggerError ("Could not compile template `" +:+ App.filename t +:+ "`."))
        (filter (λ t, compiles ctx t = false) settled)
  ∧ App.st_log (pass compiled) = [].
Proof.
  intros pass compiled. subst pass compiled. unfold App.compile_pass.
  destruct (settle_skips_failed resolve buildDir win32 ctx vfs0
              (App.mkState vfs0 [] []) (App.mkState vfs0 [] []) settled) as [Hv Hw]; [done..|].
  split; [exact Hv|]. split; [exact Hw|]. rewrite !settle_failed_log. simpl.
  split; [done|]. rewrite list_filter_filter.
  assert (filter (λ t : App.Template Ctx, compiles ctx t = false ∧ compiles ctx t = true)
            settled = []) as ->; [|done].
  apply elem_of_nil_inv. intros t [[H1 H2] _]%list_elem_of_filter. congruence.
Qed.

Example generateApp_failure_example :
  let s := App.compile_pass resolve_plain "/app/.nuxt" false () ∅
             [template_broken; template_routes] in
  App.st_vfs s !! "/app/.nuxt/routes.mjs" = Some "export default []"
  ∧ App.st_vfs s !! "/app/.nuxt/broken.mjs" = None
  ∧ App.st_writes s = [("/app/.nuxt/routes.mjs", "export default []")]
  ∧ App.st_log s = [LoggerError "Could not compile template `broken.mjs`."].
Proof. vm_compute. repeat split; reflexivity. Qed.

(** X10. Writing the queue to disk: a file named by a queued write holds
    the content of the last write to it, and every other file of the disk
    is untouched. *)
Theorem commit_last_write (disk : gmap string string) (writes : list (string * string))
  (path : string) :
  App.commit disk writes !! path
  = match last (filter (λ w, w.1 = path) writes) with
    | Some w => Some w.2
    | None => disk !! path
    end.
Proof.
  unfold App.commit. induction writes as [|[p c] ws IH] using rev_ind; [done|].
  rewrite foldl_app, filter_app, filter_cons, filter_nil. simpl.
  rewrite lookup_insert. repeat case_decide; try done.
  - by rewrite last_snoc.
  - by rewrite app_nil_r.
Qed.

(** ** The alias of a template *)

Lemma all_word_dot b w : App.all_word (b +:+ String "." w) = false.
Proof.
  induction b as [|c b IH]; simpl; [done|]. by rewrite IH, andb_false_r.
Qed.

(** X11. The alias drops the last extension of the file name: when the
    name ends with a dot followed by one or more word characters, what
    precedes that dot remains, whatever it is. *)
Theorem strip_ext_extension (b w : string) :
  Js.truthy w = true → App.all_word w = true →
  App.strip_ext (b +:+ String "." w) = b.
Proof.
  intros Hw Hall. induction b as [|c b IH]; simpl.
  - by rewrite Hw, Hall.
  - rewrite IH, all_word_dot, andb_false_r. done.
Qed.

Lemma strip_ext_extension_witness : App.strip_ext ("types/app.d" +:+ String "." "ts") = "types/app.d".
Proof. apply (strip_ext_extension "types/app.d" "ts"); reflexivity. Defined.

(** ** resolveApp: which layout is kept, and the plugins of the options *)

Section LayoutFacts.
Variable resolveFiles : string → list string → list string.
Variable resolve : string → string → string.
Variable relative : string → string → string.
Variable getNameFromPath : string → option string → string.
Variable options : ResolveApp.Config.

Let add_layout := ResolveApp.add_layout resolve relative getNameFromPath options.
Let layoutName := ResolveApp.layoutName resolve getNameFromPath options.
Let step (st : gmap string ResolveApp.LayoutSlot * list LogEntry)
    (cf : ResolveApp.Config * string) := add_layout cf.1 st cf.2.

Lemma layouts_loop_flat (files : ResolveApp.Config → list string) st cs :
  foldl (λ st c, foldl (add_layout c) st (files c)) st cs = foldl step st (all_files files cs).
Proof.
  revert st. induction cs as [|c cs IH]; intros st; [done|].
  unfold all_files. simpl. rewrite foldl_app. rewrite IH. f_equal.
  generalize (files c). intros fs. revert st.
  induction fs as [|f fs IHf]; intros st; [done|]. simpl. apply IHf.
Qed.

Lemma layouts_loop_lookup pairs st k :
  (foldl step st pairs).1 !! k
  = match st.1 !! k with
    | Some v => Some v
    | None =>
        if Js.truthy k && negb (String.eqb k "__proto__")
        then layout_slot k <$> head (filter (λ cf, layoutName cf.1 cf.2 = k) pairs)
        else None
    end.
Proof.
  revert st. induction pairs as [|[c f] pairs IH]; intros [m log]; simpl.
  - destruct (m !! k); [done|]. by destruct (Js.truthy k && _).
  - rewrite IH. unfold step, add_layout, ResolveApp.add_layout. simpl.
    fold (layoutName c f). rewrite filter_cons. simpl.
    destruct (Js.truthy (layoutName c f)) eqn:Ht; simpl.
    + unfold ResolveApp.layouts_set, ResolveApp.layouts_get.
      destruct (decide (layoutName c f = k)) as [E|E].
      * rewrite E in *. rewrite Ht. simpl.
        destruct (String.eqb k "__proto__") eqn:Hp; simpl.
        { by destruct (m !! k). }
        rewrite lookup_insert_eq. destruct (m !! k) as [v|] eqn:Hl; [done|].
        unfold layout_slot. simpl. by destruct (Js.includes _ k).
      * destruct (String.eqb (layoutName c f) "__proto__"); [done|].
        by rewrite lookup_insert_ne.
    + destruct (m !! k); [done|]. destruct (Js.truthy k) eqn:Hk; [|done].
      rewrite decide_False; [done|]. intros E. congruence.
Qed.
End LayoutFacts.

(** X12. Under a name that [Object.prototype] does not have, the layout
    stored is the first file, in the order of the layers (the user's
    project first) and of their files, from which that name is derived; a
    layer further down cannot replace it.  Under a name that
    [Object.prototype] has, no layout is stored: the inherited member is
    found and assigned back, and for [__proto__] nothing is stored at all.
    Nothing is stored under the empty name. *)
Theorem resolveApp_layout_first_wins
  (resolveFiles : string → list string → list string)
  (resolve relative : string → string → string)
  (getNameFromPath : string → option string → string)
  (options : ResolveApp.Config) (layerConfigs : list ResolveApp.Config) (k : string) :
  let layoutName := ResolveApp.layoutName resolve getNameFromPath options in
  let files := all_files (ResolveApp.layoutFiles resolveFiles options) layerConfigs in
  let first := head (filter (λ cf, layoutName cf.1 cf.2 = k) files) in
  (ResolveApp.resolve_layouts resolveFiles resolve relative getNameFromPath
     options layerConfigs).1 !! k
  = if Js.truthy k
    then if Js.includes ResolveApp.object_prototype_keys k
         then if String.eqb k "__proto__" then None
              else (λ _, ResolveApp.Inherited k) <$> first
         else (λ cf, ResolveApp.Layout (ResolveApp.mkLayout k cf.2)) <$> first
    else None.
Proof.
  intros layoutName files first. unfold ResolveApp.resolve_layouts.
  rewrite (layouts_loop_flat resolve relative getNameFromPath options).
  rewrite layouts_loop_lookup. simpl. rewrite lookup_empty.
  fold layoutName files first. unfold layout_slot.
  destruct (Js.truthy k); [|done]. simpl.
  destruct (String.eqb k "__proto__") eqn:Hp; simpl.
  - apply String.eqb_eq in Hp. subst k. reflexivity.
  - destruct (Js.includes _ k); by destruct first.
Qed.

(** In a project with the layouts [default.vue], [index.vue] and
    [constructor.vue], the first is stored as a layout, the second is
    dropped, and under the name of the third is the inherited member. *)
Example layouts_of_project :
  (ResolveApp.resolve_layouts project_files resolve_plain relative_plain project_name
     options_app [options_app]).1
  = {[ "default" := ResolveApp.Layout (ResolveApp.mkLayout "default" "/app/layouts/default.vue");
       "constructor" := ResolveApp.Inherited "constructor" ]}.
Proof. apply map_eq. intros k. vm_compute. reflexivity. Qed.

Lemma add_back_front (normalizePlugin : ResolveApp.PluginInput → NuxtPlugin) inputs ps :
  ∃ front,
    foldl (ResolveApp.add_back normalizePlugin) ps inputs = front ++ ps
    ∧ (∀ p, p ∈ inputs →
         src (normalizePlugin p)
           ∈ map src (foldl (ResolveApp.add_back normalizePlugin) ps inputs))
    ∧ (∀ q, q ∈ front → (∃ p, p ∈ inputs ∧ q = normalizePlugin p) ∧ src q ∉ map src ps)
    ∧ NoDup (map src front).
Proof.
  revert ps. induction inputs as [|p inputs IH]; intros ps; simpl.
  - exists []. split; [done|]. split; [intros p Hp; by apply elem_of_nil in Hp|].
    split; [intros q Hq; by apply elem_of_nil in Hq|constructor].
  - destruct (IH (ResolveApp.add_back normalizePlugin ps p)) as (front & Heq & Hin & Hfront & Hnd).
    unfold ResolveApp.add_back in *. case_bool_decide as Hex.
    + exists front. split; [done|]. split; [|split; [|done]].
      * intros p' [->|Hp']%elem_of_cons; [|by apply Hin].
        rewrite Heq, map_app. apply elem_of_app. right.
        apply Exists_exists in Hex as (q & Hq & Hsrc). rewrite <- Hsrc.
        by apply (list_elem_of_fmap_2 src).
      * intros q Hq. destruct (Hfront q Hq) as [(p' & Hp' & ->) Hout]. split; [|done].
        exists p'. split; [by apply list_elem_of_further|done].
    + exists (front ++ [normalizePlugin p]). split; [by rewrite Heq, <- app_assoc|].
      split; [|split].
      * intros p' [->|Hp']%elem_of_cons; [|by apply Hin].
        rewrite Heq, map_app. apply elem_of_app. right. apply list_elem_of_here.
      * intros q [Hq| ->%list_elem_of_singleton]%elem_of_app.
        -- destruct (Hfront q Hq) as [(p' & Hp' & ->) Hout]. split.
           ++ exists p'. split; [by apply list_elem_of_further|done].
           ++ intros H. apply Hout. simpl. by apply list_elem_of_further.
        -- split; [exists p; split; [apply list_elem_of_here|done]|].
           intros H. apply Hex. apply list_elem_of_fmap in H as (q & Hsrc & Hq).
           apply Exists_exists. by exists q.
      * rewrite map_app. apply NoDup_app. split; [done|]. split; [|apply NoDup_singleton].
        intros x Hx ->%list_elem_of_singleton.
        apply list_elem_of_fmap in Hx as (q & Hsrc & Hq).
        destruct (Hfront q Hq) as [_ Hout]. apply Hout. rewrite <- Hsrc. apply list_elem_of_here.
Qed.

(** X13. The plugins of [nuxt.options.plugins] are added back in front of
    the plugins found in the layers, which stay as they are and in their
    order: every plugin of the options has its source in the result; a
    plugin is put in front only if its source was not among the plugins of
    the layers, and no source is put in front twice. *)
Theorem resolveApp_plugins_added_back
  (resolveFiles : string → list string → list string)
  (normalizePlugin : ResolveApp.PluginInput → NuxtPlugin)
  (options : ResolveApp.Config) (layerConfigs : list ResolveApp.Config) :
  let scanned := ResolveApp.scanned_plugins resolveFiles normalizePlugin options layerConfigs in
  let result := ResolveApp.resolve_plugins resolveFiles normalizePlugin options layerConfigs in
  ∃ front,
    result = front ++ scanned
    ∧ (∀ p, p ∈ default [] (ResolveApp.plugins options) →
         src (normalizePlugin p) ∈ map src result)
    ∧ (∀ q, q ∈ front →
         (∃ p, p ∈ default [] (ResolveApp.plugins options) ∧ q = normalizePlugin p)
         ∧ src q ∉ map src scanned)
    ∧ NoDup (map src front).
Proof.
  intros scanned result. subst result. unfold ResolveApp.resolve_plugins. fold scanned.
  destruct (add_back_front normalizePlugin
              (reverse (default [] (ResolveApp.plugins options))) scanned)
    as (front & Heq & Hin & Hfront & Hnd).
  exists front. split; [done|]. split; [|split; [|done]].
  - intros p Hp. apply Hin. by rewrite elem_of_reverse.
  - intros q Hq. destruct (Hfront q Hq) as [(p & Hp & ->) Hout]. split; [|done].
    exists p. split; [by rewrite elem_of_reverse in Hp|done].
Qed.

(** ** The page tree *)

(** Induction on a page with the children as the induction hypothesis. *)
Lemma NuxtPage_tree_ind (P : Pages.NuxtPage → Prop) :
  (∀ p f, P (Pages.mkPage p f None)) →
  (∀ p f cs, Forall P cs → P (Pages.mkPage p f (Some cs))) →
  ∀ page, P page.
Proof.
  intros Hnone Hsome. fix IH 1. intros [p f [cs|]]; [|apply Hnone].
  apply Hsome. induction cs as [|c cs IHcs]; constructor; [apply IH|exact IHcs].
Qed.

Lemma processPage_eq (joinURL : string → string → string) cur set p f cs :
  Pages.processPage joinURL cur set (Pages.mkPage p f cs)
  = let set1 := if Pages.OPTIONAL_PARAM_RE p && Pages.no_children (Pages.mkPage p f cs)
                then Pages.set_add cur set else set in
    if Pages.includes_colon p then set1
    else match cs with
         | Some l => foldl (Pages.processPage joinURL (joinURL cur p))
                       (Pages.set_add (joinURL cur p) set1) l
         | None => Pages.set_add (joinURL cur p) set1
         end.
Proof.
  destruct cs as [l|]; [|reflexivity]. simpl.
  destruct (Pages.includes_colon p); [reflexivity|].
  generalize (Pages.set_add (joinURL cur p)
    (if Pages.OPTIONAL_PARAM_RE p && Pages.no_children (Pages.mkPage p f (Some l))
     then Pages.set_add cur set else set)).
  induction l as [|x l IH]; intros s; [reflexivity|]. simpl. apply IH.
Qed.

Lemma elem_of_set_add x y set : x ∈ Pages.set_add y set ↔ x = y ∨ x ∈ set.
Proof.
  unfold Pages.set_add, Js.includes. case_bool_decide as H.
  - split; [by right|]. by intros [->|?].
  - rewrite elem_of_app, list_elem_of_singleton. tauto.
Qed.

(** A route that is in the set stays in it. *)
Lemma foldl_processPage_mono joinURL cs :
  Forall (λ c, ∀ cur set x, x ∈ set → x ∈ Pages.processPage joinURL cur set c) cs →
  ∀ cur set x, x ∈ set → x ∈ foldl (Pages.processPage joinURL cur) set cs.
Proof.
  induction 1 as [|c cs Hc _ IH]; intros cur set x Hx; simpl; [done|].
  apply IH. by apply Hc.
Qed.

Lemma processPage_mono joinURL page :
  ∀ cur set x, x ∈ set → x ∈ Pages.processPage joinURL cur set page.
Proof.
  induction page as [p f|p f cs IH] using NuxtPage_tree_ind; intros cur set x Hx;
    rewrite processPage_eq; simpl.
  - destruct (Pages.includes_colon p);
      destruct (Pages.OPTIONAL_PARAM_RE p && _); rewrite ?elem_of_set_add; auto.
  - assert (Hset1 : x ∈ (if Pages.OPTIONAL_PARAM_RE p
                              && Pages.no_children (Pages.mkPage p f (Some cs))
                         then Pages.set_add cur set else set)).
    { destruct (_ && _); rewrite ?elem_of_set_add; auto. }
    destruct (Pages.includes_colon p); [done|].
    apply foldl_processPage_mono; [done|]. rewrite elem_of_set_add. auto.
Qed.

Lemma processPages_mono joinURL pages cur set x :
  x ∈ set → x ∈ Pages.processPages joinURL pages cur set.
Proof.
  unfold Pages.processPages. apply foldl_processPage_mono.
  apply Forall_forall. intros c _. apply processPage_mono.
Qed.

Lemma OPTIONAL_PARAM_RE_colon_head (s : string) :
  Pages.OPTIONAL_PARAM_RE s = true →
  ∃ r, s = String ":" r ∨ s = String "/" (String ":" r).
Proof.
  unfold Pages.OPTIONAL_PARAM_RE. destruct s as [|c s]; [done|].
  destruct (Ascii.eqb_spec c "/") as [->|Hc].
  - destruct s as [|c' r]; [done|].
    destruct (Ascii.eqb_spec c' ":") as [->|Hc']; [intros _; exists r; by right|].
    destruct c' as [[] [] [] [] [] [] [] []]; first [done | by destruct Hc'].
  - destruct (Ascii.eqb_spec c ":") as [->|Hc']; [intros _; exists s; by left|].
    destruct c as [[] [] [] [] [] [] [] []];
      first [done | by destruct Hc | by destruct Hc'].
Qed.

(** X14. A path that the pattern of optional parameters accepts has a
    colon, so a page with such a path is always skipped as dynamic: what it
    can add to the set is the path of its parent, never a route of its
    own. *)
Theorem OPTIONAL_PARAM_RE_is_dynamic (s : string) :
  Pages.OPTIONAL_PARAM_RE s = true → Pages.includes_colon s = true.
Proof.
  intros H. apply OPTIONAL_PARAM_RE_colon_head in H as [r [->| ->]]; reflexivity.
Qed.

Lemma OPTIONAL_PARAM_RE_is_dynamic_witness : Pages.includes_colon ":slug?" = true.
Proof. apply (OPTIONAL_PARAM_RE_is_dynamic ":slug?"). reflexivity. Defined.

(** ** processPages: which routes are prerendered *)

Lemma includes_colon_app a b :
  Pages.includes_colon (a +:+ b) = Pages.includes_colon a || Pages.includes_colon b.
Proof. induction a as [|c a IH]; simpl; [done|]. by rewrite IH, orb_assoc. Qed.

Lemma without_leading_slash_static s :
  Pages.includes_colon s = false → Pages.includes_colon (without_leading_slash s) = false.
Proof.
  intros H. destruct s as [|c s]; [done|].
  destruct (Ascii.eqb_spec c "/") as [->|Hc1].
  { simpl in *. done. }
  destruct (Ascii.eqb_spec c ".") as [->|Hc2].
  - destruct s as [|c' r]; [done|].
    destruct (Ascii.eqb_spec c' "/") as [->|Hc'].
    + simpl in *. done.
    + assert (without_leading_slash (String "." (String c' r)) = String "." (String c' r)) as ->;
        [|done].
      destruct c' as [[] [] [] [] [] [] [] []]; first [reflexivity | by destruct Hc'].
  - assert (without_leading_slash (String c s) = String c s) as ->; [|done].
    destruct c as [[] [] [] [] [] [] [] []];
      first [reflexivity | by destruct Hc1 | by destruct Hc2].
Qed.

Lemma ufo_joinURL_static a b :
  Pages.includes_colon a = false → Pages.includes_colon b = false →
  Pages.includes_colon (ufo_joinURL a b) = false.
Proof.
  intros Ha Hb. unfold ufo_joinURL. destruct (Js.truthy b && _); [|done].
  destruct (Js.truthy a); [|done].
  rewrite includes_colon_app, without_leading_slash_static by done.
  destruct (Js.endsWith "/" a); [by rewrite Ha|].
  by rewrite includes_colon_app, Ha.
Qed.

Section StaticRoutes.
Variable joinURL : string → string → string.
Hypothesis joinURL_static : ∀ a b,
  Pages.includes_colon a = false → Pages.includes_colon b = false →
  Pages.includes_colon (joinURL a b) = false.

Let static (set : list string) : Prop := Forall (λ r, Pages.includes_colon r = false) set.

Lemma set_add_static x set :
  Pages.includes_colon x = false → static set → static (Pages.set_add x set).
Proof.
  intros Hx Hs. unfold Pages.set_add. destruct (Js.includes set x); [done|].
  apply Forall_app. split; [done|]. by constructor.
Qed.

Lemma foldl_processPage_static cs :
  Forall (λ c, ∀ cur set, Pages.includes_colon cur = false → static set →
                 static (Pages.processPage joinURL cur set c)) cs →
  ∀ cur set, Pages.includes_colon cur = false → static set →
    static (foldl (Pages.processPage joinURL cur) set cs).
Proof.
  induction 1 as [|c cs Hc _ IH]; intros cur set Hcur Hs; simpl; [done|].
  apply IH; [done|]. by apply Hc.
Qed.

Lemma processPage_static page :
  ∀ cur set, Pages.includes_colon cur = false → static set →
    static (Pages.processPage joinURL cur set page).
Proof.
  induction page as [p f|p f cs IH] using NuxtPage_tree_ind; intros cur set Hcur Hs;
    rewrite processPage_eq; simpl.
  - assert (static (if Pages.OPTIONAL_PARAM_RE p && Pages.no_children (Pages.mkPage p f None)
                    then Pages.set_add cur set else set)) as Hs1.
    { destruct (_ && _); [by apply set_add_static|done]. }
    destruct (Pages.includes_colon p) eqn:Hp; [done|].
    apply set_add_static; [by apply joinURL_static|done].
  - assert (static (if Pages.OPTIONAL_PARAM_RE p
                         && Pages.no_children (Pages.mkPage p f (Some cs))
                    then Pages.set_add cur set else set)) as Hs1.
    { destruct (_ && _); [by apply set_add_static|done]. }
    destruct (Pages.includes_colon p) eqn:Hp; [done|].
    apply foldl_processPage_static; [done|by apply joinURL_static|].
    apply set_add_static; [by apply joinURL_static|done].
Qed.
End StaticRoutes.

(** X15. No dynamic route is prerendered: as long as joining two paths
    without a colon gives a path without a colon, no route of the set has a
    colon, whatever the page tree. *)
Theorem prerenderRoutes_static (joinURL : string → string → string)
  (pages : list Pages.NuxtPage) :
  (∀ a b, Pages.includes_colon a = false → Pages.includes_colon b = false →
          Pages.includes_colon (joinURL a b) = false) →
  Forall (λ r, Pages.includes_colon r = false) (Pages.prerenderRoutes joinURL pages).
Proof.
  intros Hj. unfold Pages.prerenderRoutes, Pages.processPages.
  apply (foldl_processPage_static joinURL); [|done|constructor].
  apply Forall_forall. intros c _. by apply processPage_static.
Qed.

Lemma prerenderRoutes_static_witness :
  Forall (λ r, Pages.includes_colon r = false)
    (Pages.prerenderRoutes ufo_joinURL (page_user :: pages_nested)).
Proof. apply (prerenderRoutes_static ufo_joinURL), ufo_joinURL_static. Defined.

Lemma processPage_adds_route joinURL cur set page :
  Pages.includes_colon (Pages.path page) = false →
  joinURL cur (Pages.path page) ∈ Pages.processPage joinURL cur set page.
Proof.
  destruct page as [p f cs]. intros Hp.
  change (Pages.path (Pages.mkPage p f cs)) with p in *.
  rewrite processPage_eq. cbv zeta. rewrite Hp.
  destruct cs as [l|].
  - apply foldl_processPage_mono; [|rewrite elem_of_set_add; by left].
    apply Forall_forall. intros c _. apply processPage_mono.
  - rewrite elem_of_set_add. by left.
Qed.

(** X16. The route of every page of the top level whose path has no colon
    is prerendered. *)
Theorem prerenderRoutes_top_level (joinURL : string → string → string)
  (pages : list Pages.NuxtPage) (page : Pages.NuxtPage) :
  page ∈ pages → Pages.includes_colon (Pages.path page) = false →
  joinURL "/" (Pages.path page) ∈ Pages.prerenderRoutes joinURL pages.
Proof.
  intros Hin Hp. apply list_elem_of_split in Hin as (l1 & l2 & ->).
  unfold Pages.prerenderRoutes, Pages.processPages. rewrite foldl_app. simpl.
  apply foldl_processPage_mono; [|by apply processPage_adds_route].
  apply Forall_forall. intros c _. apply processPage_mono.
Qed.

Lemma prerenderRoutes_top_level_witness :
  ufo_joinURL "/" "/blog" ∈ Pages.prerenderRoutes ufo_joinURL pages_nested.
Proof.
  apply (prerenderRoutes_top_level ufo_joinURL pages_nested
           (Pages.mkPage "/blog" None (Some [Pages.mkPage ":slug?" None (Some [])]))).
  - apply list_elem_of_further, list_elem_of_here.
  - reflexivity.
Defined.

(** X17. A page whose path has a colon is skipped together with the pages
    below it: all it can add to the set is the path of its parent (and it
    does so only for an optional parameter without children); no child of
    it is walked, not even a static one. *)
Theorem processPage_dynamic_skipped (joinURL : string → string → string)
  (cur : string) (set : list string) (page : Pages.NuxtPage) (x : string) :
  Pages.includes_colon (Pages.path page) = true →
  x ∈ Pages.processPage joinURL cur set page →
  x ∈ set ∨ (x = cur ∧ Pages.OPTIONAL_PARAM_RE (Pages.path page) = true
             ∧ Pages.no_children page = true).
Proof.
  destruct page as [p f cs]. intros Hp.
  change (Pages.path (Pages.mkPage p f cs)) with p in *.
  rewrite processPage_eq. cbv zeta. rewrite Hp.
  destruct (Pages.OPTIONAL_PARAM_RE p); simpl; [|by left].
  destruct (Pages.no_children _); [|by left].
  rewrite elem_of_set_add. intros [->|H]; [by right|by left].
Qed.

Lemma processPage_dynamic_skipped_witness :
  "/user/:id/settings" ∉ Pages.processPage ufo_joinURL "/" [] page_user.
Proof.
  intros H.
  apply (processPage_dynamic_skipped ufo_joinURL "/" [] page_user) in H; [|reflexivity].
  destruct H as [H|[H _]]; [by apply elem_of_nil in H|discriminate H].
Defined.

(** ** isPage and getSources: the files of the page tree *)

Lemma page_files_eq p f cs :
  page_files (Pages.mkPage p f cs)
  = f :: match cs with Some l => tree_files l | None => [] end.
Proof.
  destruct cs as [l|]; [|reflexivity]. simpl. f_equal.
  induction l as [|x l IH]; [reflexivity|]. unfold tree_files. simpl. by rewrite IH.
Qed.

Lemma existsb_is_file f l : existsb (Pages.is_file f) l = true ↔ Some f ∈ map Pages.file l.
Proof.
  rewrite existsb_exists. split.
  - intros (c & Hc & Hf). unfold Pages.is_file in Hf.
    destruct (Pages.file c) as [g|] eqn:Hg; [|done]. apply String.eqb_eq in Hf as ->.
    rewrite <- Hg. apply (list_elem_of_fmap_2 Pages.file). by apply list_elem_of_In.
  - intros (c & Hf & Hc)%list_elem_of_fmap. exists c.
    split; [by apply list_elem_of_In|]. unfold Pages.is_file. rewrite <- Hf.
    apply String.eqb_refl.
Qed.

Lemma elem_of_concat {A : Type} (x : A) (ls : list (list A)) :
  x ∈ concat ls ↔ ∃ l, x ∈ l ∧ l ∈ ls.
Proof.
  induction ls as [|l0 ls IH]; simpl.
  - split; [intros H; by apply elem_of_nil in H|]. intros (l & _ & H). by apply elem_of_nil in H.
  - rewrite elem_of_app, IH. split.
    + intros [H|(l & Hx & Hl)]; [exists l0; split; [done|apply list_elem_of_here]|].
      exists l. split; [done|]. by apply list_elem_of_further.
    + intros (l & Hx & [->|Hl]%elem_of_cons); [by left|]. right. by exists l.
Qed.

Lemma tree_files_elem x l :
  x ∈ tree_files l ↔ ∃ c, c ∈ l ∧ x ∈ page_files c.
Proof.
  unfold tree_files. rewrite elem_of_concat. split.
  - intros (fs & Hx & (c & -> & Hc)%list_elem_of_fmap). by exists c.
  - intros (c & Hc & Hx). exists (page_files c). split; [done|].
    by apply (list_elem_of_fmap_2 page_files).
Qed.

Lemma isPage_level f l :
  Forall (λ c, Pages.in_children f c = true
               ↔ Some f ∈ tree_files (default [] (Pages.children c))) l →
  existsb (Pages.is_file f) l || existsb (Pages.in_children f) l = true
  ↔ Some f ∈ tree_files l.
Proof.
  intros Hl. rewrite orb_true_iff, existsb_is_file, tree_files_elem, existsb_exists. split.
  - intros [(c & Hf & Hc)%list_elem_of_fmap|(c & Hc & Hin)].
    + exists c. split; [done|]. destruct c as [p g cs]. rewrite page_files_eq.
      simpl in Hf. rewrite Hf. apply list_elem_of_here.
    + apply list_elem_of_In in Hc. exists c. split; [done|].
      apply (proj1 (Forall_forall _ _) Hl c Hc) in Hin.
      destruct c as [p g cs]. rewrite page_files_eq. apply list_elem_of_further.
      simpl in Hin. by destruct cs.
  - intros (c & Hc & Hx). destruct c as [p g cs] eqn:Ec. rewrite page_files_eq in Hx.
    apply elem_of_cons in Hx as [Hx|Hx].
    + left. apply list_elem_of_fmap. exists c. subst c. by split.
    + right. exists c. split; [apply list_elem_of_In; by subst c|].
      apply (proj1 (Forall_forall _ _) Hl). { by subst c. }
      subst c. simpl. by destruct cs.
Qed.

Lemma in_children_tree f page :
  Pages.in_children f page = true ↔ Some f ∈ tree_files (default [] (Pages.children page)).
Proof.
  induction page as [p g|p g cs IH] using NuxtPage_tree_ind.
  - simpl. split; [done|]. intros H. by apply elem_of_nil in H.
  - change (Pages.in_children f (Pages.mkPage p g (Some cs)))
      with (existsb (Pages.is_file f) cs || existsb (Pages.in_children f) cs).
    simpl. by apply isPage_level.
Qed.

(** X18. [isPage] holds of a file exactly when it is the file of some page
    of the tree, at any depth; without pages it holds of no file. *)
Theorem isPage_tree (f : string) (pages : option (list Pages.NuxtPage)) :
  Pages.isPage f pages = true ↔ ∃ ps, pages = Some ps ∧ Some f ∈ tree_files ps.
Proof.
  destruct pages as [ps|]; simpl.
  - rewrite isPage_level.
    + split; [intros H; by exists ps|]. by intros (ps' & [= <-] & H).
    + apply Forall_forall. intros c _. apply in_children_tree.
  - split; [done|]. by intros (ps & ? & _).
Qed.

Section GetSourcesFacts.
Variable relative : string → string → string.
Variable srcDir : string.

Let getSources := PagesHooks.getSources relative srcDir.
Let getSources_page := PagesHooks.getSources_page relative srcDir.

Lemma getSources_page_eq p f cs :
  getSources_page (Pages.mkPage p f cs)
  = match f with
    | Some g =>
        if Js.truthy g
        then relative srcDir g :: match cs with Some l => getSources l | None => [] end
        else []
    | None => []
    end.
Proof.
  destruct f as [g|]; [|reflexivity]. simpl. destruct (Js.truthy g); [|reflexivity].
  f_equal. destruct cs as [[|c l]|]; try reflexivity.
  unfold getSources, getSources_page, PagesHooks.getSources. simpl. f_equal.
  induction l as [|x l IH]; [reflexivity|]. simpl. by rewrite IH.
Qed.

Lemma getSources_elem x l :
  x ∈ getSources l ↔ ∃ c, c ∈ l ∧ x ∈ getSources_page c.
Proof.
  unfold getSources, PagesHooks.getSources. rewrite elem_of_concat. split.
  - intros (fs & Hx & (c & -> & Hc)%list_elem_of_fmap). by exists c.
  - intros (c & Hc & Hx). exists (PagesHooks.getSources_page relative srcDir c).
    split; [done|]. by apply (list_elem_of_fmap_2 (PagesHooks.getSources_page relative srcDir)).
Qed.

Lemma getSources_page_sound page x :
  x ∈ getSources_page page →
  ∃ g, Some g ∈ page_files page ∧ Js.truthy g = true ∧ x = relative srcDir g.
Proof.
  revert x. induction page as [p f|p f cs IH] using NuxtPage_tree_ind; intros x;
    rewrite getSources_page_eq, page_files_eq.
  - destruct f as [g|]; [|intros H; by apply elem_of_nil in H].
    destruct (Js.truthy g) eqn:Hg; [|intros H; by apply elem_of_nil in H].
    intros ->%list_elem_of_singleton. exists g. split; [apply list_elem_of_here|done].
  - destruct f as [g|]; [|intros H; by apply elem_of_nil in H].
    destruct (Js.truthy g) eqn:Hg; [|intros H; by apply elem_of_nil in H].
    intros [->|Hx]%elem_of_cons.
    + exists g. split; [apply list_elem_of_here|done].
    + apply getSources_elem in Hx as (c & Hc & Hx).
      apply (proj1 (Forall_forall _ _) IH c Hc) in Hx as (h & Hh & Ht & ->).
      exists h. split; [|done]. apply list_elem_of_further, tree_files_elem. by exists c.
Qed.
End GetSourcesFacts.

(** X19. Every source that [getSources] lists is the path, relative to the
    source directory, of the file of a page of the tree; the file of every
    page of the top level is listed; and a page without a file hides the
    pages below it. *)
Theorem getSources_files (relative : string → string → string) (srcDir : string)
  (pages : list Pages.NuxtPage) :
  (∀ x, x ∈ PagesHooks.getSources relative srcDir pages →
        ∃ g, Some g ∈ tree_files pages ∧ Js.truthy g = true ∧ x = relative srcDir g)
  ∧ (∀ page g, page ∈ pages → Pages.file page = Some g → Js.truthy g = true →
               relative srcDir g ∈ PagesHooks.getSources relative srcDir pages)
  ∧ (∀ p cs, PagesHooks.getSources relative srcDir [Pages.mkPage p None cs] = []).
Proof.
  split; [|split].
  - intros x (c & Hc & Hx)%getSources_elem.
    apply getSources_page_sound in Hx as (g & Hg & Ht & ->).
    exists g. split; [|done]. apply tree_files_elem. by exists c.
  - intros [p f cs] g Hin Hf Ht. simpl in Hf. subst f.
    apply getSources_elem. exists (Pages.mkPage p (Some g) cs). split; [done|].
    rewrite getSources_page_eq, Ht. apply list_elem_of_here.
  - reflexivity.
Qed.

(** ** The routes handed to the prerenderer *)

Lemma foldl_add_configured routes set x :
  x ∈ foldl PagesHooks.add_configured set routes
  ↔ x ∈ set ∨ (x ∈ routes ∧ x ≠ "/").
Proof.
  revert set. induction routes as [|r routes IH]; intros set; simpl.
  - split; [by left|]. intros [H|[H _]]; [done|by apply elem_of_nil in H].
  - rewrite IH. unfold PagesHooks.add_configured.
    destruct (String.eqb_spec r "/") as [->|Hr].
    + rewrite elem_of_cons. split; [intros [H|[H1 H2]]; auto|].
      intros [H|[[->|H1] H2]]; auto. done.
    + rewrite elem_of_set_add, elem_of_cons. split.
      * intros [[->|H]|[H1 H2]]; auto.
      * intros [H|[[->|H1] H2]]; auto.
Qed.

Lemma foldl_add_configured_prefix routes set :
  ∃ extra, foldl PagesHooks.add_configured set routes = set ++ extra.
Proof.
  revert set. induction routes as [|r routes IH]; intros set; simpl.
  - exists []. by rewrite app_nil_r.
  - destruct (IH (PagesHooks.add_configured set r)) as [extra ->].
    unfold PagesHooks.add_configured, Pages.set_add.
    destruct (String.eqb r "/"); [by exists extra|].
    destruct (Js.includes set r); [by exists extra|].
    exists ([r] ++ extra). by rewrite app_assoc.
Qed.

(** X20. When routes to prerender are configured, the routes handed on are
    the routes found in the pages, in their order, followed by the
    configured ones that are new; the root is handed on only if it was
    found in the pages.  When none is configured, none is handed on. *)
Theorem nitro_build_before_routes (routes prerenderRoutes : list string) :
  (∀ x, x ∈ PagesHooks.nitro_build_before routes prerenderRoutes
        ↔ routes ≠ [] ∧ (x ∈ prerenderRoutes ∨ (x ∈ routes ∧ x ≠ "/")))
  ∧ ("/" ∈ PagesHooks.nitro_build_before routes prerenderRoutes
     ↔ routes ≠ [] ∧ "/" ∈ prerenderRoutes)
  ∧ (routes ≠ [] →
     ∃ extra, PagesHooks.nitro_build_before routes prerenderRoutes = prerenderRoutes ++ extra).
Proof.
  assert (H : ∀ x, x ∈ PagesHooks.nitro_build_before routes prerenderRoutes
        ↔ routes ≠ [] ∧ (x ∈ prerenderRoutes ∨ (x ∈ routes ∧ x ≠ "/"))).
  { intros x. unfold PagesHooks.nitro_build_before. destruct routes as [|r routes].
    - split; [intros H; by apply elem_of_nil in H|]. by intros [? _].
    - rewrite (foldl_add_configured (r :: routes)). split; [by intros H|by intros [_ H]]. }
  split; [exact H|]. split.
  - rewrite H. split; [|intros [? ?]; auto]. intros [? [?|[_ ?]]]; done.
  - intros Hne. unfold PagesHooks.nitro_build_before. destruct routes as [|r routes]; [done|].
    apply (foldl_add_configured_prefix (r :: routes)).
Qed.

(** ** isPagesEnabled without a preference, and the router options *)

Lemma some_nonEmptyDir_spec (isNonEmptyDir : string → bool) dirs :
  (Pages.some_nonEmptyDir isNonEmptyDir dirs).1 = existsb isNonEmptyDir dirs
  ∧ ∀ e, e ∈ (Pages.some_nonEmptyDir isNonEmptyDir dirs).2 →
      e ≠ Pages.PagesRoutes ∧ ∀ d, e = Pages.PagesDir d → d ∈ dirs.
Proof.
  induction dirs as [|d dirs [IH1 IH2]]; simpl.
  - split; [done|]. intros e He. by apply elem_of_nil in He.
  - destruct (isNonEmptyDir d); simpl.
    + split; [done|]. intros e ->%list_elem_of_singleton. split; [done|].
      intros d' [= <-]. apply list_elem_of_here.
    + destruct (Pages.some_nonEmptyDir isNonEmptyDir dirs) as [b seen]. simpl in *.
      split; [done|]. intros e [->|He]%elem_of_cons.
      * split; [done|]. intros d' [= <-]. apply list_elem_of_here.
      * destruct (IH2 e He) as [Hne Hd]. split; [done|].
        intros d' ->. apply list_elem_of_further. by apply Hd.
Qed.

Lemma some_nonEmptyDir_true (isNonEmptyDir : string → bool) dirs :
  (Pages.some_nonEmptyDir isNonEmptyDir dirs).1 = true →
  (Pages.some_nonEmptyDir isNonEmptyDir dirs).2 ≠ [].
Proof.
  destruct dirs as [|d dirs]; simpl; [done|].
  destruct (isNonEmptyDir d); [done|].
  by destruct (Pages.some_nonEmptyDir isNonEmptyDir dirs).
Qed.

Lemma filter_required_nil (files : list (string * bool)) :
  filter (λ p, p.2 = false) files = [] ↔ existsb (λ p, negb p.2) files = false.
Proof.
  induction files as [|[path opt] files IH]; [done|].
  rewrite filter_cons. destruct opt; simpl; [exact IH|]. split; done.
Qed.

(** X21. Without a boolean preference, pages are enabled exactly when a
    router options file that is not optional exists, or a pages directory
    is not empty, or the pages resolved and passed through the hook are not
    none.  The tests are made in this order and stop at the first that
    succeeds: the directories are read only when no such router options
    file exists, and the pages are resolved only when, in addition, every
    directory is empty. *)
Theorem isPagesEnabled_without_preference
  (routerOptionsFiles : list (string * bool)) (isNonEmptyDir : string → bool)
  (pagesDirs : list string) (resolvePagesRoutes : list Pages.NuxtPage)
  (callHook_pages_extend : list Pages.NuxtPage → list Pages.NuxtPage) :
  let out := Pages.isPagesEnabled routerOptionsFiles isNonEmptyDir pagesDirs
               resolvePagesRoutes callHook_pages_extend None in
  let required := existsb (λ p, negb p.2) routerOptionsFiles in
  let directory := existsb isNonEmptyDir pagesDirs in
  out.1 = required || directory
          || match callHook_pages_extend resolvePagesRoutes with [] => false | _ :: _ => true end
  ∧ (Pages.PagesRoutes ∈ out.2 ↔ required = false ∧ directory = false)
  ∧ (∀ d, Pages.PagesDir d ∈ out.2 → required = false ∧ d ∈ pagesDirs).
Proof.
  intros out required directory. subst out. unfold Pages.isPagesEnabled.
  pose proof (filter_required_nil routerOptionsFiles) as Hreq. fold required in Hreq.
  destruct (some_nonEmptyDir_spec isNonEmptyDir pagesDirs) as [Hdir Htrace].
  fold directory in Hdir.
  destruct (filter (λ p, p.2 = false) routerOptionsFiles) as [|r rs].
  - rewrite (proj1 Hreq eq_refl). simpl.
    destruct (Pages.some_nonEmptyDir isNonEmptyDir pagesDirs) as [b seen]. simpl in *. subst b.
    destruct directory; simpl.
    + split; [done|]. split.
      * split; [|by intros [_ ?]]. intros [H|H]%elem_of_cons; [done|].
        by destruct (Htrace _ H) as [? _].
      * intros d [H|H]%elem_of_cons; [done|]. split; [done|].
        destruct (Htrace _ H) as [_ Hd]. by apply Hd.
    + split; [done|]. split.
      * split; [done|]. intros _. apply list_elem_of_further, elem_of_app. right.
        apply list_elem_of_here.
      * intros d [H|[H|H]%elem_of_app]%elem_of_cons; [done| |].
        -- split; [done|]. destruct (Htrace _ H) as [_ Hd]. by apply Hd.
        -- apply elem_of_cons in H as [H|H]; [done|].
           apply list_elem_of_singleton in H. done.
  - assert (required = true) as ->.
    { destruct required; [done|]. by pose proof (proj2 Hreq eq_refl). }
    simpl. split; [done|]. split.
    + split; [|by intros [? _]]. intros H%list_elem_of_singleton. done.
    + intros d H%list_elem_of_singleton. done.
Qed.

Lemma add_router_options_fold (findPath : string → option string)
  (resolve : string → string → string) layers files :
  foldl (PagesHooks.add_router_options findPath resolve) files layers
  = reverse (omap (layer_router_file findPath resolve) layers) ++ files.
Proof.
  revert files. induction layers as [|l layers IH]; intros files; simpl; [done|].
  rewrite IH. unfold PagesHooks.add_router_options, layer_router_file.
  destruct (findPath _) as [path|]; simpl; [|done].
  destruct (Js.truthy path); simpl; [|done].
  by rewrite reverse_cons, <- app_assoc.
Qed.

(** X22. When no hook changes them, the router options are the built-in
    file, marked optional, followed by the files of the layers from the
    last layer to the first, so that the one of the user's project comes
    last.  The built-in file alone never enables the pages; a file in any
    layer does, before any directory is read. *)
Theorem resolveRouterOptions_files
  (findPath : string → option string) (resolve : string → string → string)
  (runtimeDir : string) (layers : list Watch.Layer)
  (isNonEmptyDir : string → bool) (pagesDirs : list string)
  (resolvePagesRoutes : list Pages.NuxtPage)
  (callHook_pages_extend : list Pages.NuxtPage → list Pages.NuxtPage) :
  let found := omap (layer_router_file findPath resolve) layers in
  let files := PagesHooks.resolveRouterOptions findPath resolve runtimeDir (λ files, files)
                 layers in
  let enabled := Pages.isPagesEnabled files isNonEmptyDir pagesDirs resolvePagesRoutes
                   callHook_pages_extend None in
  files = (resolve runtimeDir "router.options", true) :: reverse found
  ∧ filter (λ p, p.2 = false) files = reverse found
  ∧ (found ≠ [] → enabled = (true, [Pages.RouterOptionsFiles]))
  ∧ (found = [] → Pages.RouterOptionsFiles ∈ enabled.2 ∧ enabled.2 ≠ [Pages.RouterOptionsFiles]).
Proof.
  intros found files enabled.
  assert (Hfiles : files = (resolve runtimeDir "router.options", true) :: reverse found).
  { subst files found. unfold PagesHooks.resolveRouterOptions.
    by rewrite add_router_options_fold, app_nil_r. }
  assert (Hfilter : filter (λ p, p.2 = false) files = reverse found).
  { rewrite Hfiles, filter_cons. simpl.
    assert (Hall : Forall (λ p : string * bool, p.2 = false) (reverse found)).
    { apply Forall_forall. intros p Hp. rewrite elem_of_reverse in Hp. subst found.
      apply list_elem_of_omap in Hp as (l & _ & Hl). unfold layer_router_file in Hl.
      destruct (findPath _) as [path|]; [|done]. destruct (Js.truthy path); [|done].
      by injection Hl as <-. }
    clear Hfiles. induction Hall as [|p ps Hp _ IH]; [done|].
    rewrite filter_cons, decide_True by done. f_equal. exact IH. }
  split; [exact Hfiles|]. split; [exact Hfilter|].
  subst enabled. unfold Pages.isPagesEnabled. rewrite Hfilter. split.
  - intros Hne. destruct (reverse found) as [|p ps] eqn:E; [|done].
    destruct Hne. apply (f_equal reverse) in E. by rewrite reverse_involutive in E.
  - intros ->. simpl.
    pose proof (some_nonEmptyDir_true isNonEmptyDir pagesDirs) as Hseen.
    destruct (Pages.some_nonEmptyDir isNonEmptyDir pagesDirs) as [b seen].
    destruct b; simpl in *.
    + split; [apply list_elem_of_here|]. intros [= ->]. by apply Hseen.
    + split; [apply list_elem_of_here|]. intros [= H]. by destruct seen.
Qed.

(** ** The watch handlers, whatever the event *)

(** X23. Once the path that the handler of initNuxt works with is
    absolute, the kind of the event plays no part: for every event the
    handler restarts, hard, for a scanned module file, restarts for a path
    that matches the [watch] option, and does nothing otherwise. *)
Theorem core_watch_event_irrelevant
  (resolve relative : string → string → string) (options : ResolveApp.Config)
  (layers : list Watch.Layer) (watchedPaths : list string) (watch : list Watch.WatchPattern)
  (event : Watch.WatchEvent) (relativePath : string) :
  is_absolute (resolve (ResolveApp.srcDir options) relativePath) = true →
  let path := resolve (ResolveApp.srcDir options) relativePath in
  Watch.core_watch resolve relative options layers watchedPaths watch event relativePath
  = (if Js.includes watchedPaths path then Watch.Restart true
     else if Watch.user_pattern_matches path
               (map (λ l, relative (Watch.layer_dir l) path) layers) watch
          then Watch.Restart false
          else Watch.NoAction, []).
Proof.
  intros Habs path. unfold Watch.core_watch. fold path.
  destruct (Js.includes watchedPaths path); [done|].
  destruct (Watch.user_pattern_matches _ _ _); [done|].
  unfold path. rewrite RESTART_RE_absolute by done. by rewrite andb_false_r.
Qed.

Lemma core_watch_event_irrelevant_witness :
  Watch.core_watch resolve_plain relative_plain options_app [layer_app] watched_modules []
    Watch.unlink "modules/hello.ts" = (Watch.Restart true, []).
Proof.
  apply (core_watch_event_irrelevant resolve_plain relative_plain options_app [layer_app]
           watched_modules [] Watch.unlink "modules/hello.ts").
  reflexivity.
Defined.

Lemma updateTemplatePaths_elem (join : string → string → string)
  (options : ResolveApp.Config) (layers : list Watch.Layer) l field d :
  l ∈ layers → (field, d) ∈ template_dirs →
  join (Watch.layer_dir l) (ResolveApp.dir_of options field d (Watch.config l)) +:+ "/"
  ∈ Watch.updateTemplatePaths join options layers.
Proof.
  intros Hl Hd. unfold Watch.updateTemplatePaths. apply list_elem_of_bind. exists l.
  split; [|done]. unfold template_dirs in Hd. unfold Watch.pagesDir.
  rewrite !elem_of_cons in Hd. rewrite !elem_of_cons.
  destruct Hd as [[= -> ->]|[[= -> ->]|[[= -> ->]|Hd]]]; auto.
  by apply elem_of_nil in Hd.
Qed.

(** X24. A file that is added to or removed from (any event but a change)
    the pages, layouts or middleware directory of a layer makes the pages
    handler regenerate the templates, filtered to routes.mjs. *)
Theorem pages_watch_structural
  (resolve join : string → string → string) (options : ResolveApp.Config)
  (layers : list Watch.Layer) (scanPageMeta : bool) (pages : option (list Pages.NuxtPage))
  (event : Watch.WatchEvent) (relativePath : string)
  (l : Watch.Layer) (field : ResolveApp.Config → option string) (d : string) :
  event ≠ Watch.change →
  l ∈ layers → (field, d) ∈ template_dirs →
  Js.startsWith
    (join (Watch.layer_dir l) (ResolveApp.dir_of options field d (Watch.config l)) +:+ "/")
    (resolve (ResolveApp.srcDir options) relativePath) = true →
  Watch.pages_watch resolve join options layers scanPageMeta pages event relativePath
  = Watch.UpdateTemplates Watch.routes_only.
Proof.
  intros Hev Hl Hd Hstart. unfold Watch.pages_watch.
  assert (Watch.event_eqb event Watch.change = false) as -> by (by destruct event).
  simpl.
  assert (existsb (λ dir, Js.startsWith dir (resolve (ResolveApp.srcDir options) relativePath))
            (Watch.updateTemplatePaths join options layers) = true) as ->.
  { apply existsb_exists. eexists. split; [|exact Hstart].
    apply list_elem_of_In. by apply updateTemplatePaths_elem. }
  by rewrite orb_true_r.
Qed.

Lemma pages_watch_structural_witness :
  Watch.pages_watch resolve_plain resolve_plain options_app [layer_app] false pages_app
    Watch.add "layouts/default.vue" = Watch.UpdateTemplates Watch.routes_only.
Proof.
  apply (pages_watch_structural resolve_plain resolve_plain options_app [layer_app] false
           pages_app Watch.add "layouts/default.vue" layer_app ResolveApp.dir_layouts "layouts").
  - discriminate.
  - apply list_elem_of_here.
  - apply list_elem_of_further, list_elem_of_here.
  - reflexivity.
Defined.

(** ** The modules of the layers *)

Lemma foldl_concat {A B C : Type} (f : A → B → A) (g : C → list B) st cs :
  foldl (λ st c, foldl f st (g c)) st cs = foldl f st (concat (map g cs)).
Proof.
  revert st. induction cs as [|c cs IH]; intros st; simpl; [done|].
  by rewrite foldl_app, IH.
Qed.

Lemma NoDup_set_add x set : NoDup set → NoDup (Pages.set_add x set).
Proof.
  intros Hnd. unfold Pages.set_add, Js.includes. case_bool_decide as Hx; [done|].
  apply NoDup_app. split; [done|]. split; [|apply NoDup_singleton].
  intros y Hy ->%list_elem_of_singleton. done.
Qed.

Lemma scan_module_files files st :
  let st' := foldl Modules.scan_module st files in
  (∀ x, x ∈ Modules.watchedPaths st' ↔ x ∈ Modules.watchedPaths st ∨ x ∈ files)
  ∧ (NoDup (Modules.watchedPaths st) → NoDup (Modules.watchedPaths st'))
  ∧ ∃ new, Modules.scanned st' = Modules.scanned st ++ new
           ∧ NoDup new
           ∧ (∀ x, x ∈ new ↔ x ∈ files ∧ x ∉ Modules.specifiedModules st).
Proof.
  revert st. induction files as [|f fs IH]; intros st; simpl.
  - split; [intros x; split; [by left|]; intros [H|H]; [done|by apply elem_of_nil in H]|].
    split; [done|]. exists []. rewrite app_nil_r. split; [done|]. split; [constructor|].
    intros x. split; [intros H; by apply elem_of_nil in H|].
    intros [H _]. by apply elem_of_nil in H.
  - destruct (IH (Modules.scan_module st f)) as (Hw & Hnd & new & Hs & Hnew & Hin).
    unfold Modules.scan_module, Js.includes in *. case_bool_decide as Hf; simpl in *.
    + split; [|split].
      * intros x. rewrite Hw, elem_of_set_add, elem_of_cons. tauto.
      * intros H. by apply Hnd, NoDup_set_add.
      * exists new. split; [done|]. split; [done|].
        intros x. rewrite Hin, elem_of_cons. split; [tauto|].
        intros [[->|H] Hx]; [done|tauto].
    + split; [|split].
      * intros x. rewrite Hw, elem_of_set_add, elem_of_cons. tauto.
      * intros H. by apply Hnd, NoDup_set_add.
      * exists (f :: new). split; [by rewrite Hs, <- app_assoc|]. split.
        -- constructor; [|done]. rewrite Hin, elem_of_app, list_elem_of_singleton. tauto.
        -- intros x. rewrite !elem_of_cons, Hin, elem_of_app, list_elem_of_singleton.
           destruct (decide (x = f)) as [->|Hne]; tauto.
Qed.

(** X25. Every module file found in the layers is watched, and only those.
    The files that are installed from the scan are the files found that the
    [modules] option does not already give (by a string that resolves to
    the file), each once; they are installed before the modules of the
    options, which follow in their order. *)
Theorem modules_scanned_once
  (resolvePath : string → string) (resolveFiles : string → list string → list string)
  (dir_modules : ResolveApp.Config → option string) (options : ResolveApp.Config)
  (options_modules options__modules : list Modules.ModuleEntry)
  (layerConfigs : list ResolveApp.Config) :
  let files := concat (map (Modules.layerModules resolveFiles dir_modules options)
                         (reverse layerConfigs)) in
  let specified := Modules.specified_by_options resolvePath options_modules in
  let st := Modules.scan_layers resolvePath resolveFiles dir_modules options
              options_modules layerConfigs in
  (∀ x, x ∈ Modules.watchedPaths st ↔ x ∈ files)
  ∧ NoDup (Modules.watchedPaths st)
  ∧ NoDup (Modules.scanned st)
  ∧ (∀ x, x ∈ Modules.scanned st ↔ x ∈ files ∧ x ∉ specified)
  ∧ Modules.modulesToInstall resolvePath resolveFiles dir_modules options
      options_modules options__modules layerConfigs
    = map Modules.Scanned (Modules.scanned st)
      ++ map Modules.Listed options_modules ++ map Modules.Listed options__modules.
Proof.
  intros files specified st. subst st. unfold Modules.scan_layers.
  rewrite foldl_concat. fold files. fold specified.
  destruct (scan_module_files files (Modules.mkScan [] specified []))
    as (Hw & Hnd & new & Hs & Hnew & Hin).
  simpl in *. rewrite Hs.
  split; [|split; [|split; [done|split; [done|]]]].
  - intros x. rewrite Hw. split; [intros [H|H]; [by apply elem_of_nil in H|done]|by right].
  - apply Hnd. constructor.
  - unfold Modules.modulesToInstall, Modules.scan_layers. rewrite foldl_concat.
    fold files. fold specified. by rewrite Hs.
Qed.

(** ** checkForCircularDependencies: a reported cycle is a cycle *)

Lemma walk_snoc deps l a b :
  walk deps (l ++ [a]) → edge deps a b → walk deps ((l ++ [a]) ++ [b]).
Proof.
  intros Hw He. induction l as [|x l IH]; simpl in *; [done|].
  destruct l as [|y l]; simpl in *.
  - destruct Hw as [Hxa _]. done.
  - destruct Hw as [Hxy Hw]. split; [done|]. by apply IH.
Qed.

Lemma flatMap_Forall (P : LogEntry → Prop) f l r log :
  (∀ x r log, x ∈ l → f x = Some (r, log) → r = [] ∧ Forall P log) →
  Plugins.flatMap f l = Some (r, log) → r = [] ∧ Forall P log.
Proof.
  revert r log. induction l as [|x l IH]; intros r log Hf; simpl.
  - by intros [= <- <-].
  - destruct (f x) as [[r1 log1]|] eqn:Hx; [|done].
    destruct (Plugins.flatMap f l) as [[r2 log2]|] eqn:Hl; [|done].
    intros [= <- <-].
    destruct (Hf x r1 log1) as [-> H1]; [apply list_elem_of_here|done|].
    destruct (IH r2 log2) as [-> H2]; [|done|].
    { intros y ry logy Hy. apply Hf. by apply list_elem_of_further. }
    split; [done|]. by apply Forall_app.
Qed.

Lemma checkDeps_sound deps fuel :
  ∀ n visited r log,
    walk deps (visited ++ [n]) →
    Plugins.checkDeps fuel deps n visited = Some (r, log) →
    r = [] ∧ Forall (real_cycle deps) log.
Proof.
  induction fuel as [|fuel IH]; intros n visited r log Hw; [done|].
  rewrite checkDeps_S. unfold Js.includes. case_bool_decide as Hin.
  - intros [= <- <-]. split; [done|]. constructor; [|constructor]. by exists visited, n.
  - destruct (Plugins.get n deps) as [[|dep ds]|] eqn:Hget;
      [by intros [= <- <-]| |by intros [= <- <-]].
    apply flatMap_Forall. intros x rx logx Hx. apply IH.
    apply walk_snoc; [done|]. by exists (dep :: ds).
Qed.

Lemma check_all_sound deps fuel names log :
  Plugins.check_all fuel deps names = Some log → Forall (real_cycle deps) log.
Proof.
  revert log. induction names as [|n names IH]; intros log; simpl.
  - by intros [= <-].
  - destruct (Plugins.checkDeps fuel deps n []) as [[r logn]|] eqn:Hn; [|done].
    destruct (Plugins.check_all fuel deps names) as [log'|]; [|done].
    intros [= <-]. apply Forall_app. split; [|by apply IH].
    by apply (checkDeps_sound deps fuel n [] r logn).
Qed.

(** X26. What the check logs are the diagnostics of missing dependencies,
    followed by cycle diagnostics each of which names a real cycle: a list
    of names in which every name is followed by one of its dependencies and
    the last name has occurred before. *)
Theorem checkForCircularDependencies_sound (_plugins : list NuxtPlugin) (log : list LogEntry) :
  Plugins.checkForCircularDependencies _plugins = Some log →
  ∃ cycles,
    log = concat (map (Plugins.missing_error (map name _plugins)) _plugins) ++ cycles
    ∧ Forall (real_cycle (Plugins.build_deps _plugins)) cycles.
Proof.
  unfold Plugins.checkForCircularDependencies, Plugins.checkForCircularDependencies_fuel.
  destruct (Plugins.check_all _ _ _) as [cycles|] eqn:Hc; [|done].
  intros [= <-]. exists cycles. split; [done|]. by eapply check_all_sound.
Qed.

Lemma checkForCircularDependencies_sound_witness :
  ∃ cycles,
    [ConsoleError "Circular dependency detected in plugins: a -> b -> a";
     ConsoleError "Circular dependency detected in plugins: b -> a -> b"]
    = concat (map (Plugins.missing_error (map name [plugin_a "a.ts"; plugin_b "b.ts"]))
                [plugin_a "a.ts"; plugin_b "b.ts"]) ++ cycles
    ∧ Forall (real_cycle (Plugins.build_deps [plugin_a "a.ts"; plugin_b "b.ts"])) cycles.
Proof.
  apply (checkForCircularDependencies_sound [plugin_a "a.ts"; plugin_b "b.ts"]).
  reflexivity.
Defined.

(** ** Inline route rules *)

Section RouteRulesFacts.
Context {Rule : Type}.
Variable extractRouteRules : string → option Rule + string.
Variable vfs : gmap string string.
Variable readFile : string → string + string.
Variable relative : string → string → string.
Variable srcDir : string.

Let updatePage := RouteRules.updatePage extractRouteRules vfs readFile relative srcDir.

(** X27. Updating a page changes the inline rules at most under the glob
    of the page, and never the map from pages to globs.  Whenever something
    is logged, it is one error and the rules stay as they are (a rule that
    was stored before stays too); this is what happens when extracting the
    rules from the code of the page, taken from the vfs, throws. *)
Theorem updatePage_frame (st st' : RouteRules.Rules) (path : string) (log : list LogEntry) :
  updatePage st path = inl (st', log) →
  RouteRules.pageToGlobMap st' = RouteRules.pageToGlobMap st
  ∧ (∀ g, RouteRules.glob_of st path ≠ Some g →
          RouteRules.inlineRules st' !! g = RouteRules.inlineRules st !! g)
  ∧ (log ≠ [] → st' = st ∧ length log = 1%nat)
  ∧ (∀ code e, vfs !! path = Some code → extractRouteRules code = inr e →
               st' = st ∧ length log = 1%nat).
Proof.
  unfold updatePage, RouteRules.updatePage.
  destruct (match vfs !! path with Some c => inl c | None => readFile path end)
    as [code|e] eqn:Hcode; [|done].
  destruct (extractRouteRules code) as [[rule|]|e] eqn:Hex.
  - destruct (RouteRules.glob_of st path) as [glob|] eqn:Hg.
    + intros [= <- <-]. simpl. split; [done|]. split; [|split; [done|]].
      * intros g Hne. apply lookup_insert_ne. congruence.
      * intros code' e' Hv. rewrite Hv in Hcode. injection Hcode as ->. congruence.
    + intros [= <- <-]. split; [done|]. split; [done|]. split; [done|].
      intros code' e' Hv. rewrite Hv in Hcode. injection Hcode as ->. congruence.
  - destruct (RouteRules.glob_of st path) as [glob|] eqn:Hg.
    + intros [= <- <-]. simpl. split; [done|]. split; [|split; [done|]].
      * intros g Hne. apply lookup_delete_ne. congruence.
      * intros code' e' Hv. rewrite Hv in Hcode. injection Hcode as ->. congruence.
    + intros [= <- <-]. split; [done|]. split; [done|]. split; [done|].
      intros code' e' Hv. rewrite Hv in Hcode. injection Hcode as ->. congruence.
  - destruct (RouteRules.contains _ e); intros [= <- <-]; done.
Qed.

(** X28. When a page that is in the map is unlinked, the handler removes
    it from the map and removes from the inline rules the entry whose key
    is the path of the file; the rules are keyed by glob, so the rule
    stored under the glob of the page stays unless the glob is that very
    path.  A path that is not in the map changes nothing. *)
Theorem rules_watch_unlink (st : RouteRules.Rules) (path : string) :
  let out := RouteRules.rules_watch extractRouteRules vfs readFile relative srcDir
               st Watch.unlink path in
  (RouteRules.pageToGlobMap st !! path = None → out = inl (st, []))
  ∧ (is_Some (RouteRules.pageToGlobMap st !! path) →
     ∃ st', out = inl (st', [])
            ∧ RouteRules.pageToGlobMap st' = delete path (RouteRules.pageToGlobMap st)
            ∧ RouteRules.inlineRules st' !! path = None
            ∧ ∀ g, g ≠ path →
                RouteRules.inlineRules st' !! g = RouteRules.inlineRules st !! g).
Proof.
  intros out. subst out. unfold RouteRules.rules_watch. split.
  - by intros ->.
  - intros [v ->]. simpl. eexists. split; [done|]. simpl.
    split; [done|]. split; [apply lookup_delete_eq|].
    intros g Hne. by apply lookup_delete_ne.
Qed.
End RouteRulesFacts.

Lemma updatePage_frame_witness :
  RouteRules.inlineRules
    (RouteRules.mkRules (RouteRules.pageToGlobMap rules_state)
       (<["/about" := "{ swr: 60 }"]> (RouteRules.inlineRules rules_state)))
    !! "/contact"
  = RouteRules.inlineRules rules_state !! "/contact".
Proof.
  assert (H : RouteRules.updatePage extract_code {[ "/app/pages/about.vue" := "{ swr: 60 }" ]}
                no_file relative_plain "/app" rules_state "/app/pages/about.vue"
              = inl (RouteRules.mkRules (RouteRules.pageToGlobMap rules_state)
                       (<["/about" := "{ swr: 60 }"]> (RouteRules.inlineRules rules_state)),
                     []))
    by (vm_compute; reflexivity).
  apply (proj1 (proj2 (updatePage_frame extract_code _ no_file relative_plain "/app"
                         rules_state _ "/app/pages/about.vue" _ H))).
  vm_compute. intros [=].
Defined.

Example unlink_keeps_glob_rule :
  ∃ st', RouteRules.rules_watch extract_fails ∅ no_file relative_plain "/app"
           rules_state Watch.unlink "/app/pages/about.vue" = inl (st', [])
         ∧ RouteRules.pageToGlobMap st' !! "/app/pages/about.vue" = None
         ∧ RouteRules.inlineRules st' !! "/about" = Some "{ prerender: true }".
Proof. eexists. split; [reflexivity|]. vm_compute. split; reflexivity. Qed.
